(** * HTTPClient (src/HTTP/Client.cpp): a shallow embedding

    Strings ([std::string], [char]) are Rocq [string]s of 8-bit [ascii]
    characters.  Integers of the C++ code ([int], [size_t]) are [Z] with the
    wrap-around of the conversions written out.  The [Map] type of the
    client ([std::map<std::string, std::string>]) is an association list kept
    in key order, updated the way [std::map::operator[]] and
    [std::map::insert] update it; its iteration order is the list order. *)

From Stdlib Require Import String Ascii List ZArith Lia Bool.
From Stdlib Require Import DecimalString DecimalN Sorted RelationClasses.
Import ListNotations.
Open Scope string_scope.

(** ** Characters and strings *)

Definition CR : ascii := Ascii.ascii_of_nat 13.
Definition LF : ascii := Ascii.ascii_of_nat 10.
Definition NUL : ascii := Ascii.ascii_of_nat 0.
Definition CRLF : string := String CR (String LF EmptyString).

(** [std::string::find(char)]: index of the first occurrence. *)
Fixpoint find_char (c : ascii) (s : string) : option nat :=
  match s with
  | EmptyString => None
  | String c' s' =>
      if Ascii.eqb c c' then Some 0
      else option_map S (find_char c s')
  end.

(** [s.substr(0, n)] for [n <= s.size()]. *)
Fixpoint str_take (n : nat) (s : string) : string :=
  match n, s with
  | O, _ => EmptyString
  | S n', String c s' => String c (str_take n' s')
  | S _, EmptyString => EmptyString
  end.

Fixpoint str_drop (n : nat) (s : string) : string :=
  match n, s with
  | O, _ => s
  | S n', String _ s' => str_drop n' s'
  | S _, EmptyString => EmptyString
  end.

(** [s.substr(pos)]: throws [std::out_of_range] when [pos > s.size()];
    the exception is [None]. *)
Definition substr_from (pos : nat) (s : string) : option string :=
  if Nat.leb pos (String.length s) then Some (str_drop pos s) else None.

(** [::tolower] in the "C" locale. *)
Definition tolower (c : ascii) : ascii :=
  let n := Ascii.nat_of_ascii c in
  if (Nat.leb 65 n && Nat.leb n 90)%bool then Ascii.ascii_of_nat (n + 32) else c.

Fixpoint str_map (f : ascii -> ascii) (s : string) : string :=
  match s with
  | EmptyString => EmptyString
  | String c s' => String (f c) (str_map f s')
  end.

(** [isspace] in the "C" locale. *)
Definition isspace (c : ascii) : bool :=
  let n := Ascii.nat_of_ascii c in
  (Nat.eqb n 32 || (Nat.leb 9 n && Nat.leb n 13))%bool.

Definition isdigit (c : ascii) : bool :=
  let n := Ascii.nat_of_ascii c in (Nat.leb 48 n && Nat.leb n 57)%bool.

(** [s] occurs in [t] as a contiguous substring. *)
Fixpoint contains (s t : string) : bool :=
  String.prefix s t ||
  match t with
  | EmptyString => false
  | String _ t' => contains s t'
  end.

(** [fmt::format("{}", n)] for an unsigned and a signed integer. *)
Definition fmt_nat (n : nat) : string :=
  NilZero.string_of_uint (N.to_uint (N.of_nat n)).
Definition fmt_Z (z : Z) : string :=
  NilZero.string_of_int (Z.to_int z).

(** ** Machine integers *)

Definition INT_MIN : Z := (- 2 ^ 31)%Z.
Definition INT_MAX : Z := (2 ^ 31 - 1)%Z.

(** [static_cast<int>] of a wider integer: reduction modulo 2^32 into the
    signed range (the behaviour of every mainstream compiler, and the rule
    of C++20). *)
Definition to_int (z : Z) : Z :=
  let m := (z mod 2 ^ 32)%Z in if Z.leb (2 ^ 31) m then (m - 2 ^ 32)%Z else m.

(** Conversion of an [int] to [size_t] (64 bits). *)
Definition to_size_t (z : Z) : Z := (z mod 2 ^ 64)%Z.

(** ** Error codes *)

Inductive ECode :=
| OK
| SOCKET_CONNECT
| SOCKET_SEND
| SOCKET_RECV
| HOST_ADDRINFO
| HOST_NORESULT
| WSA_STARTUP.

(** ** [Map]: [std::map<std::string, std::string>] *)

Module StdMap.

Definition Map := list (string * string).

(** [m.find(k)]. *)
Fixpoint find (k : string) (m : Map) : option string :=
  match m with
  | [] => None
  | (k', v') :: m' => if String.eqb k k' then Some v' else find k m'
  end.

(** [m[k] = v]: overwrite the entry of [k], or add it at its place in key
    order. *)
Fixpoint set (k v : string) (m : Map) : Map :=
  match m with
  | [] => [(k, v)]
  | (k', v') :: m' =>
      match String.compare k k' with
      | Lt => (k, v) :: m
      | Eq => (k, v) :: m'
      | Gt => (k', v') :: set k v m'
      end
  end.

(** [m.insert({k, v})]: does nothing when [k] is already present. *)
Definition insert (k v : string) (m : Map) : Map :=
  match find k m with
  | Some _ => m
  | None => set k v m
  end.

(** [m.insert(src.begin(), src.end())]. *)
Definition insert_range (src m : Map) : Map :=
  fold_left (fun acc kv => insert (fst kv) (snd kv) acc) src m.

End StdMap.

Import StdMap.

(** ** The client and the response objects *)

(** [struct sockaddr]: its raw bytes, as [memcpy] copies them. *)
Definition sockaddr := string.

Record HTTPClient := mkHTTPClient {
  _unresolved_host : string;
  _port : Z;
  _address : sockaddr;
  _system_headers : Map;
  _system_cookies : Map
}.

Record HTTPResponse := mkHTTPResponse {
  _raw : string;
  _protover : string;
  _code : Z;
  _status : string;
  _headers : Map;
  _cookies : Map;
  _data : string
}.

(** Modelled from the spec: [HTTPResponse::Reset] is declared outside the
    sources; the spec says the response is reset at the start of each
    Receive, so every field is emptied. *)
Definition HTTPResponse_Reset (r : HTTPResponse) : HTTPResponse :=
  mkHTTPResponse "" "" 0%Z "" [] [] "".

(** Modelled from the spec: the [HTTP_VERSION] constant is defined outside
    the sources; the spec describes an HTTP/1.1 client. *)
Definition HTTP_VERSION : string := "HTTP/1.1".

(** [HTTPClient::SetupSystemHeaders]. *)
Definition SetupSystemHeaders (c : HTTPClient) : HTTPClient :=
  mkHTTPClient (_unresolved_host c) (_port c) (_address c)
    (set "host" (_unresolved_host c ++ ":" ++ fmt_Z (_port c)) (_system_headers c))
    (_system_cookies c).

(** The constructor [HTTPClient(server_host, server_port)]; [_address{}] is
    sixteen zero bytes. *)
Definition new_HTTPClient (server_host : string) (server_port : Z) : HTTPClient :=
  SetupSystemHeaders
    (mkHTTPClient server_host server_port (String.concat "" (repeat (String NUL EmptyString) 16)) [] []).

(** ** [HTTPClient::FormatRequest] *)

Definition format_query (query_params : Map) : string :=
  match query_params with
  | [] => ""
  | _ => fold_left (fun acc kv => acc ++ (fst kv ++ "=" ++ snd kv ++ "&")) query_params "?"
  end.

Definition format_headers (headers : Map) (request : string) : string :=
  fold_left (fun acc kv => acc ++ (fst kv ++ ": " ++ snd kv ++ CRLF)) headers request.

Definition format_cookies (cookies : Map) (request : string) : string :=
  match cookies with
  | [] => request
  | _ =>
      fold_left (fun acc kv => acc ++ (fst kv ++ "=" ++ snd kv ++ ";")) cookies
        (request ++ "cookie: ") ++ CRLF
  end.

Definition format_data_headers (data content_type : string) (request : string) : string :=
  match data with
  | EmptyString => request
  | _ =>
      request ++ ("content-length: " ++ fmt_nat (String.length data) ++ CRLF)
              ++ ("content-type: " ++ content_type ++ CRLF)
  end.

Definition FormatRequest (method path : string) (query_params : Map)
    (data content_type : string) (headers cookies : Map) : string :=
  let query_string := format_query query_params in
  let request := method ++ " " ++ path ++ query_string ++ " " ++ HTTP_VERSION ++ CRLF in
  let request := format_headers headers request in
  let request := format_cookies cookies request in
  let request := format_data_headers data content_type request in
  let request := request ++ CRLF in
  match data with
  | EmptyString => request
  | _ => request ++ data
  end.

(** ** Number parsing *)

Fixpoint skip_ws (s : string) : string :=
  match s with
  | String c s' => if isspace c then skip_ws s' else s
  | EmptyString => EmptyString
  end.

(** The longest prefix of characters satisfying [p], and the rest. *)
Fixpoint span (p : ascii -> bool) (s : string) : string * string :=
  match s with
  | String c s' =>
      if p c then let (a, b) := span p s' in (String c a, b) else (EmptyString, s)
  | EmptyString => (EmptyString, EmptyString)
  end.

Fixpoint digits_value (acc : Z) (s : string) : Z :=
  match s with
  | String c s' => digits_value (acc * 10 + Z.of_nat (Ascii.nat_of_ascii c - 48))%Z s'
  | EmptyString => acc
  end.

(** Optional sign, then decimal digits: the sign, the digits, the rest. *)
Definition read_sign (s : string) : bool * string :=
  match s with
  | String c s' =>
      if Ascii.eqb c "-" then (true, s')
      else if Ascii.eqb c "+" then (false, s') else (false, s)
  | EmptyString => (false, EmptyString)
  end.

Definition clamp (lo hi z : Z) : Z := Z.max lo (Z.min hi z).

Definition LONG_MIN : Z := (- 2 ^ 63)%Z.
Definition LONG_MAX : Z := (2 ^ 63 - 1)%Z.

(** [std::atoi] as glibc implements it: [(int) strtol(s, NULL, 10)], with
    [strtol] saturating at the bounds of [long]. *)
Definition atoi (s : string) : Z :=
  let (neg, r) := read_sign (skip_ws s) in
  let (ds, _) := span isdigit r in
  let v := digits_value 0 ds in
  to_int (clamp LONG_MIN LONG_MAX (if neg then - v else v)%Z).

(** ** [std::stringstream] extraction *)

Record istream := mkIstream { is_rest : string; is_fail : bool }.

(** [ss >> str]: the sentry skips white space and fails at end of input,
    leaving [str] unchanged; otherwise [str] becomes the next run of
    non-space characters. *)
Definition extract_string (ss : istream) (str : string) : istream * string :=
  if is_fail ss then (ss, str) else
  match skip_ws (is_rest ss) with
  | EmptyString => (mkIstream EmptyString true, str)
  | r => let (tok, rest) := span (fun c => negb (isspace c)) r in
         (mkIstream rest false, tok)
  end.

(** [ss >> n] for an [int] (libstdc++): optional sign and decimal digits;
    no digit stores 0 and fails; a value out of the [int] range stores the
    nearest bound and fails. *)
Definition extract_int (ss : istream) (n : Z) : istream * Z :=
  if is_fail ss then (ss, n) else
  match skip_ws (is_rest ss) with
  | EmptyString => (mkIstream EmptyString true, n)
  | r =>
      let (neg, r1) := read_sign r in
      let (ds, rest) := span isdigit r1 in
      match ds with
      | EmptyString => (mkIstream rest true, 0%Z)
      | _ =>
          let v := (if neg then - digits_value 0 ds else digits_value 0 ds)%Z in
          if Z.ltb v INT_MIN then (mkIstream rest true, INT_MIN)
          else if Z.ltb INT_MAX v then (mkIstream rest true, INT_MAX)
          else (mkIstream rest false, v)
      end
  end.

(** ** [HTTPClient::ParseResponse] *)

(** Modelled from the spec: [Utils::Split] is declared outside the
    sources; the spec treats it as a given utility that breaks the raw
    response into lines at each occurrence of the delimiter.  The pieces
    between the occurrences are kept, empty ones included. *)
Fixpoint Split_aux (fuel : nat) (s delim : string) : list string :=
  match fuel with
  | O => [s]
  | S fuel' =>
      match String.index 0 delim s with
      | None => [s]
      | Some i => str_take i s :: Split_aux fuel' (str_drop (i + String.length delim) s) delim
      end
  end.

Definition Split (s delim : string) : list string :=
  match delim with
  | EmptyString => [s]
  | _ => Split_aux (S (String.length s)) s delim
  end.

Inductive pstate := STATUS | HEADERS | BODY.

Definition with_status (r : HTTPResponse) (pv : string) (code : Z) (st : string) :=
  mkHTTPResponse (_raw r) pv code st (_headers r) (_cookies r) (_data r).
Definition with_headers (r : HTTPResponse) (h : Map) :=
  mkHTTPResponse (_raw r) (_protover r) (_code r) (_status r) h (_cookies r) (_data r).
Definition with_cookies (r : HTTPResponse) (ck : Map) :=
  mkHTTPResponse (_raw r) (_protover r) (_code r) (_status r) (_headers r) ck (_data r).
Definition with_data (r : HTTPResponse) (d : string) :=
  mkHTTPResponse (_raw r) (_protover r) (_code r) (_status r) (_headers r) (_cookies r) d.

(** [case STATUS]: [ss >> _protover >> _code >> _status]. *)
Definition parse_status (line : string) (r : HTTPResponse) : HTTPResponse :=
  let ss := mkIstream line false in
  let (ss, pv) := extract_string ss (_protover r) in
  let (ss, code) := extract_int ss (_code r) in
  let (_, st) := extract_string ss (_status r) in
  with_status r pv code st.

(** [case HEADERS], a non-empty line; [None] is the [std::out_of_range]
    thrown by [line.substr(pos + 2)]. *)
Definition parse_header (line : string) (content_length : Z) (r : HTTPResponse)
    : option (Z * HTTPResponse) :=
  match find_char ":" line with
  | None => Some (content_length, r)
  | Some pos =>
      let key := str_take pos line in
      match substr_from (pos + 2) line with
      | None => None
      | Some val =>
          let key := str_map tolower key in
          if negb (String.eqb key "set-cookie") then
            let r := with_headers r (set key val (_headers r)) in
            if String.eqb key "content-length"
            then Some (to_size_t (atoi val), r)
            else Some (content_length, r)
          else
            match find_char "=" val with
            | Some pos =>
                let cookie_key := str_take pos val in
                let cookie_val := str_drop (pos + 1) val in
                let cookie_val :=
                  match find_char ";" cookie_val with
                  | Some p => str_take p cookie_val
                  | None => cookie_val
                  end in
                Some (content_length, with_cookies r (set cookie_key cookie_val (_cookies r)))
            | None => Some (content_length, r)
            end
      end
  end.

(** [case BODY]. *)
Definition parse_body (line : string) (content_length : Z) (r : HTTPResponse) : HTTPResponse :=
  let d := _data r ++ line in
  if Z.ltb (Z.of_nat (String.length d)) content_length
  then with_data r (d ++ CRLF)
  else with_data r d.

(** One iteration of the loop over the lines. *)
Definition parse_line (st : pstate) (content_length : Z) (r : HTTPResponse) (line : string)
    : option (pstate * Z * HTTPResponse) :=
  match st with
  | STATUS => Some (HEADERS, content_length, parse_status line r)
  | HEADERS =>
      match line with
      | EmptyString => Some (BODY, content_length, r)
      | _ =>
          match parse_header line content_length r with
          | Some (cl, r') => Some (HEADERS, cl, r')
          | None => None
          end
      end
  | BODY => Some (BODY, content_length, parse_body line content_length r)
  end.

Fixpoint parse_lines (lines : list string) (st : pstate) (content_length : Z)
    (r : HTTPResponse) : option (pstate * Z * HTTPResponse) :=
  match lines with
  | [] => Some (st, content_length, r)
  | line :: lines' =>
      match parse_line st content_length r line with
      | Some (st', cl', r') => parse_lines lines' st' cl' r'
      | None => None
      end
  end.

(** [None] is an exception escaping the parser. *)
Definition ParseResponse (r : HTTPResponse) : option (ECode * HTTPResponse) :=
  match parse_lines (Split (_raw r) CRLF) STATUS 0%Z r with
  | Some (_, _, r') => Some (OK, r')
  | None => None
  end.

(** ** Sockets *)

(** The peer as the client sees it.  [net_send i n] is what the [i]-th
    [send] call returns when asked for [n] bytes: [Some k] for [k] bytes
    written, [None] for [SOCKET_ERROR].  [net_recv] lists the successive
    [recv] results: [None] for [-1], [Some chunk] for the bytes read; once
    the list is exhausted the peer has closed and [recv] returns 0. *)
Record Net := mkNet {
  net_socket : bool;
  net_connect : bool;
  net_send : nat -> Z -> option Z;
  net_recv : list (option string)
}.

(** [HTTPClient::Connect]: [true] is a valid socket. *)
Definition Connect (net : Net) : bool := net_socket net && net_connect net.

(** The [while (remaining_bytes)] loop of [HTTPClient::Send].  The trace
    lists the [send] calls: [Some seg] delivered the bytes [seg],
    [None] failed.  [None] as a result means the fuel ran out (the loop did
    not stop). *)
Fixpoint send_loop (send : nat -> Z -> option Z) (fuel call : nat) (request : string)
    (buf_idx remaining : Z) : option (ECode * list (option string)) :=
  if Z.eqb remaining 0 then Some (OK, []) else
  match fuel with
  | O => None
  | S fuel' =>
      match send call remaining with
      | None => Some (SOCKET_SEND, [None])
      | Some sent_bytes =>
          let seg := str_take (Z.to_nat sent_bytes) (str_drop (Z.to_nat buf_idx) request) in
          match send_loop send fuel' (S call) request (buf_idx + sent_bytes)
                  (remaining - sent_bytes) with
          | Some (e, tr) => Some (e, Some seg :: tr)
          | None => None
          end
      end
  end.

(** [HTTPClient::Send]: [remaining_bytes] is [static_cast<int>(request.size())]. *)
Definition Send (send : nat -> Z -> option Z) (request : string)
    : option (ECode * list (option string)) :=
  send_loop send (S (String.length request)) 0 request 0
    (to_int (Z.of_nat (String.length request))).

(** [response._raw.append(buffer)] after [buffer[recv_bytes] = 0]: the
    characters of the chunk up to its first NUL. *)
Definition c_str (chunk : string) : string :=
  fst (span (fun c => negb (Ascii.eqb c NUL)) chunk).

(** The [while (1)] loop of [HTTPClient::Receive] with a 256-byte buffer,
    reading [sizeof(buffer) - 1 = 255] bytes at a time. *)
Fixpoint recv_loop (reads : list (option string)) (raw : string) : ECode * string :=
  match reads with
  | [] => (OK, raw ++ "")
  | None :: _ => (SOCKET_RECV, raw)
  | Some chunk :: reads' =>
      let raw := raw ++ c_str chunk in
      if Nat.eqb (String.length chunk) 255 then recv_loop reads' raw else (OK, raw)
  end.

Definition with_raw (r : HTTPResponse) (raw : string) :=
  mkHTTPResponse raw (_protover r) (_code r) (_status r) (_headers r) (_cookies r) (_data r).

(** [HTTPClient::Receive]; [None] is an exception escaping the parser. *)
Definition Receive (reads : list (option string)) (response : HTTPResponse)
    : option (ECode * HTTPResponse) :=
  let response := HTTPResponse_Reset response in
  match recv_loop reads (_raw response) with
  | (SOCKET_RECV, raw) => Some (SOCKET_RECV, with_raw response raw)
  | (_, raw) => ParseResponse (with_raw response raw)
  end.

(** ** [HTTPClient::Request] *)

Definition with_system_cookies (c : HTTPClient) (ck : Map) :=
  mkHTTPClient (_unresolved_host c) (_port c) (_address c) (_system_headers c) ck.

(** The merged header and cookie maps handed to the formatter. *)
Definition merge_headers (c : HTTPClient) (user_headers : Map) : Map :=
  insert_range (_system_headers c) user_headers.
Definition merge_cookies (c : HTTPClient) (user_cookies : Map) : Map :=
  insert_range (_system_cookies c) user_cookies.

(** The bytes the request sends. *)
Definition request_bytes (c : HTTPClient) (method path : string) (query_params : Map)
    (data content_type : string) (user_headers user_cookies : Map) : string :=
  FormatRequest method path query_params data content_type
    (merge_headers c user_headers) (merge_cookies c user_cookies).

(** The default-constructed [HTTPResponse response] of [Request]; [Receive]
    resets it before use. *)
Definition empty_response : HTTPResponse := mkHTTPResponse "" "" 0%Z "" [] [] "".

(** [HTTPClient::Request]: the error code and the client after the call;
    [None] when the call does not return (an exception or a [send] loop
    that never ends). *)
Definition Request (net : Net) (c : HTTPClient) (method path : string) (query_params : Map)
    (data content_type : string) (user_headers user_cookies : Map)
    : option (ECode * HTTPClient) :=
  let request := request_bytes c method path query_params data content_type
                   user_headers user_cookies in
  if negb (Connect net) then Some (SOCKET_CONNECT, c) else
  match Send (net_send net) request with
  | None => None
  | Some (OK, _) =>
      match Receive (net_recv net) empty_response with
      | None => None
      | Some (OK, response) =>
          Some (OK, with_system_cookies c
                      (fold_left (fun acc kv => set (fst kv) (snd kv) acc)
                         (_cookies response) (_system_cookies c)))
      | Some (err, _) => Some (err, c)
      end
  | Some (err, _) => Some (err, c)
  end.

(** ** [HTTPClient::ResolveHost] *)

Definition AF_INET : Z := 2.
Definition SOCK_STREAM : Z := 1.
Definition IPPROTO_TCP : Z := 6.

Record addrinfo := mkAddrinfo {
  ai_family : Z;
  ai_socktype : Z;
  ai_protocol : Z;
  ai_addr : sockaddr
}.

Definition with_address (c : HTTPClient) (a : sockaddr) :=
  mkHTTPClient (_unresolved_host c) (_port c) a (_system_headers c) (_system_cookies c).

Definition ai_matches (ai : addrinfo) : bool :=
  Z.eqb (ai_family ai) AF_INET && Z.eqb (ai_socktype ai) SOCK_STREAM
  && Z.eqb (ai_protocol ai) IPPROTO_TCP.

(** The loop over the [ai_next] chain: the first matching candidate. *)
Fixpoint first_match (l : list addrinfo) : option addrinfo :=
  match l with
  | [] => None
  | ai :: l' => if ai_matches ai then Some ai else first_match l'
  end.

(** [HTTPClient::ResolveHost].  [getaddrinfo host port] is the outcome of
    the system call: [None] for a non-zero return, [Some l] for the result
    list. [memcpy] copies [sizeof(struct sockaddr) = 16] bytes. *)
Definition ResolveHost (getaddrinfo : string -> string -> option (list addrinfo))
    (c : HTTPClient) : ECode * HTTPClient :=
  match getaddrinfo (_unresolved_host c) (fmt_Z (_port c)) with
  | None => (HOST_ADDRINFO, c)
  | Some result =>
      match first_match result with
      | Some ai => (OK, with_address c (str_take 16 (ai_addr ai)))
      | None => (HOST_NORESULT, c)
      end
  end.

(** * Properties *)

(** ** Strings *)

Lemma str_app_assoc (a b c : string) : (a ++ b) ++ c = a ++ (b ++ c).
Proof. induction a; simpl; congruence. Qed.

Lemma str_app_nil_r (a : string) : a ++ "" = a.
Proof. induction a; simpl; congruence. Qed.

Lemma str_length_app (a b : string) :
  String.length (a ++ b) = String.length a + String.length b.
Proof. induction a; simpl; auto. Qed.

Lemma prefix_app (s t : string) : String.prefix s (s ++ t) = true.
Proof.
  induction s as [|c s IH]; simpl.
  - destruct t; reflexivity.
  - destruct (ascii_dec c c); [exact IH | congruence].
Qed.

Lemma contains_prefix (s t : string) : contains s (s ++ t) = true.
Proof.
  pose proof (prefix_app s t) as H. revert H. generalize (s ++ t). intros u H.
  destruct u; cbn [contains]; rewrite H; reflexivity.
Qed.

Lemma contains_app_l (s u t : string) : contains s t = true -> contains s (u ++ t) = true.
Proof.
  induction u as [|c u IH]; intro H; [exact H|].
  cbn [String.append contains]. rewrite (IH H). apply orb_true_r.
Qed.

Lemma prefix_app_r (s t u : string) : String.prefix s t = true -> String.prefix s (t ++ u) = true.
Proof.
  revert t; induction s as [|c s IH]; intros t H; [destruct (t ++ u); reflexivity|].
  destruct t as [|c' t]; [discriminate|].
  cbn [String.append String.prefix] in H |- *.
  destruct (ascii_dec c c'); [apply IH; exact H | discriminate].
Qed.

Lemma contains_app_r (s t u : string) : contains s t = true -> contains s (t ++ u) = true.
Proof.
  induction t as [|c t IH]; intro H.
  - cbn [contains] in H. apply orb_true_iff in H as [H|H]; [|discriminate].
    destruct s; [destruct u; reflexivity | discriminate].
  - cbn [contains] in H. apply orb_true_iff in H as [H|H].
    + pose proof (prefix_app_r _ _ u H) as H'. cbn [String.append] in H' |- *.
      cbn [contains]. rewrite H'. reflexivity.
    + cbn [String.append contains]. rewrite (IH H). apply orb_true_r.
Qed.

Lemma contains_mid (s u v : string) : contains s (u ++ s ++ v) = true.
Proof. apply contains_app_l, contains_prefix. Qed.

(** Accumulating loops of the formatter append to their accumulator. *)
Lemma fold_append {A} (f : A -> string) (l : list A) (r : string) :
  fold_left (fun acc x => acc ++ f x) l r = r ++ String.concat "" (map f l).
Proof.
  revert r; induction l as [|x l IH]; intro r; simpl.
  - rewrite str_app_nil_r. reflexivity.
  - rewrite IH, str_app_assoc. destruct l; simpl; [rewrite str_app_nil_r|]; reflexivity.
Qed.

Lemma concat_In {A} (f : A -> string) (l : list A) (x : A) :
  In x l -> contains (f x) (String.concat "" (map f l)) = true.
Proof.
  induction l as [|y l IH]; intro Hin; [destruct Hin|].
  destruct Hin as [<-|H].
  - destruct l as [|z l]; cbn [map String.concat].
    + pose proof (contains_prefix (f y) "") as H. rewrite str_app_nil_r in H. exact H.
    + apply contains_prefix.
  - destruct l as [|z l]; [destruct H|].
    cbn [map String.concat]. apply contains_app_l. cbn [String.append].
    apply IH, H.
Qed.

(** ** The ordered map *)

Module StdMapFacts.

Lemma string_compare_refl (s : string) : String.compare s s = Eq.
Proof.
  induction s as [|c s IH]; simpl; [reflexivity|].
  unfold Ascii.compare. rewrite N.compare_refl. exact IH.
Qed.

Lemma find_set_same (k v : string) (m : Map) : find k (set k v m) = Some v.
Proof.
  induction m as [|[k' v'] m IH]; simpl; [rewrite String.eqb_refl; reflexivity|].
  destruct (String.compare k k') eqn:E; simpl; rewrite ?String.eqb_refl; try reflexivity.
  destruct (String.eqb_spec k k') as [->|]; [|exact IH].
  rewrite string_compare_refl in E. discriminate.
Qed.

Lemma find_set_other (k x v : string) (m : Map) : x <> k -> find x (set k v m) = find x m.
Proof.
  intro Hne. induction m as [|[k' v'] m IH]; simpl.
  - destruct (String.eqb_spec x k); [contradiction|reflexivity].
  - destruct (String.compare k k') eqn:E; simpl.
    + apply String.compare_eq_iff in E. subst k'.
      destruct (String.eqb_spec x k); [contradiction|reflexivity].
    + destruct (String.eqb_spec x k); [contradiction|reflexivity].
    + rewrite IH. reflexivity.
Qed.

Lemma find_In (k v : string) (m : Map) : find k m = Some v -> In (k, v) m.
Proof.
  induction m as [|[k' v'] m IH]; simpl; [discriminate|].
  destruct (String.eqb_spec k k') as [->|]; intro H; [injection H as ->; left; reflexivity|].
  right. apply IH, H.
Qed.

Lemma find_insert (x k v : string) (m : Map) :
  find x (insert k v m) =
  match find x m with
  | Some w => Some w
  | None => if String.eqb x k then match find k m with Some w => Some w | None => Some v end
            else None
  end.
Proof.
  unfold insert. destruct (String.eqb_spec x k) as [->|Hne].
  - destruct (find k m) eqn:E; [exact E|]. apply find_set_same.
  - destruct (find k m); [destruct (find x m); reflexivity|].
    rewrite find_set_other by exact Hne. destruct (find x m); reflexivity.
Qed.

(** [m.insert(first, last)] keeps every key of [m]; a new key gets the value
    of its first occurrence in the range. *)
Lemma find_insert_range (x : string) (src m : Map) :
  find x (insert_range src m) =
  match find x m with
  | Some w => Some w
  | None => find x src
  end.
Proof.
  unfold insert_range. revert m; induction src as [|[k v] src IH]; intro m; simpl.
  - destruct (find x m); reflexivity.
  - rewrite IH, find_insert.
    destruct (find x m) eqn:E; [reflexivity|].
    destruct (String.eqb_spec x k) as [->|]; [rewrite E; reflexivity|reflexivity].
Qed.

End StdMapFacts.

(** ** The formatter *)

Definition header_line (kv : string * string) : string := fst kv ++ ": " ++ snd kv ++ CRLF.
Definition cookie_pair (kv : string * string) : string := fst kv ++ "=" ++ snd kv ++ ";".
Definition query_pair (kv : string * string) : string := fst kv ++ "=" ++ snd kv ++ "&".

Lemma format_headers_eq (hs : Map) (r : string) :
  format_headers hs r = r ++ String.concat "" (map header_line hs).
Proof. unfold format_headers. apply (fold_append header_line). Qed.

Lemma format_cookies_cons (kv : string * string) (ck : Map) (r : string) :
  format_cookies (kv :: ck) r
  = r ++ ("cookie: " ++ String.concat "" (map cookie_pair (kv :: ck)) ++ CRLF).
Proof.
  unfold format_cookies. rewrite (fold_append cookie_pair).
  rewrite !str_app_assoc. reflexivity.
Qed.

Lemma format_cookies_ext (ck : Map) (r : string) : exists t, format_cookies ck r = r ++ t.
Proof.
  destruct ck as [|kv ck]; [exists ""; rewrite str_app_nil_r; reflexivity|].
  eexists. apply format_cookies_cons.
Qed.

Lemma format_data_headers_ext (d ct r : string) : exists t, format_data_headers d ct r = r ++ t.
Proof.
  destruct d; [exists ""; rewrite str_app_nil_r; reflexivity|].
  eexists. reflexivity.
Qed.

(** What the formatter emits after the header lines only extends them. *)
Lemma FormatRequest_ext (m p : string) (q : Map) (d ct : string) (hs ck : Map) :
  exists t, FormatRequest m p q d ct hs ck
            = format_cookies ck (format_headers hs (m ++ " " ++ p ++ format_query q ++ " "
                                                      ++ HTTP_VERSION ++ CRLF)) ++ t.
Proof.
  unfold FormatRequest.
  set (r := format_cookies ck _).
  destruct (format_data_headers_ext d ct r) as [t Ht]. rewrite Ht.
  destruct d; [exists (t ++ CRLF) | exists (t ++ CRLF ++ String a d)];
    rewrite !str_app_assoc; reflexivity.
Qed.

Lemma FormatRequest_header (m p : string) (q : Map) (d ct : string) (hs ck : Map) kv :
  In kv hs -> contains (header_line kv) (FormatRequest m p q d ct hs ck) = true.
Proof.
  intro Hin. destruct (FormatRequest_ext m p q d ct hs ck) as [t ->].
  apply contains_app_r.
  destruct (format_cookies_ext ck (format_headers hs (m ++ " " ++ p ++ format_query q ++ " "
                                                      ++ HTTP_VERSION ++ CRLF))) as [u ->].
  apply contains_app_r. rewrite format_headers_eq.
  apply contains_app_l, concat_In, Hin.
Qed.

(** Every merged cookie appears in the one [cookie: ] line. *)
Lemma FormatRequest_cookie (m p : string) (q : Map) (d ct : string) (hs ck : Map) kv :
  In kv ck ->
  exists line, contains ("cookie: " ++ line ++ CRLF) (FormatRequest m p q d ct hs ck) = true
               /\ contains (cookie_pair kv) line = true.
Proof.
  intro Hin. destruct ck as [|kv0 ck]; [destruct Hin|].
  exists (String.concat "" (map cookie_pair (kv0 :: ck))). split.
  - destruct (FormatRequest_ext m p q d ct hs (kv0 :: ck)) as [t ->].
    apply contains_app_r. rewrite format_cookies_cons.
    apply contains_app_l.
    pose proof (contains_prefix ("cookie: " ++ String.concat "" (map cookie_pair (kv0 :: ck))
                                 ++ CRLF) "") as H.
    rewrite str_app_nil_r in H. exact H.
  - apply concat_In, Hin.
Qed.

(** ** Header merge in [Request] (C1) *)

Definition example_client : HTTPClient := new_HTTPClient "example.com" 80%Z.

(** Counterexample to C1: the caller passes its own [host] header; the merged
    mapping keeps the caller's value and the client's [host] line is not
    emitted. *)
Lemma C1_persistent_header_does_not_win :
  find "host" (_system_headers example_client) = Some "example.com:80"
  /\ find "host" (merge_headers example_client [("host", "attacker.test")]) <> Some "example.com:80"
  /\ contains ("host: example.com:80" ++ CRLF)
       (request_bytes example_client "GET" "/" [] "" "" [("host", "attacker.test")] [])
     = false.
Proof. vm_compute. split; [reflexivity|]. split; [discriminate|reflexivity]. Qed.

(** C1 (amended): on a name supplied by the caller, the merged header mapping
    holds the caller's value ([std::map::insert] keeps existing keys), and
    that value is the one emitted as a header line; a persistent header only
    fills in names the caller did not supply. *)
Theorem C1_caller_header_wins (c : HTTPClient) (method path : string) (query_params : Map)
    (data content_type : string) (user_headers user_cookies : Map) (k v : string)
    (H : find k user_headers = Some v) :
  find k (merge_headers c user_headers) = Some v
  /\ contains (k ++ ": " ++ v ++ CRLF)
       (request_bytes c method path query_params data content_type user_headers user_cookies)
     = true
  /\ (forall k', find k' user_headers = None ->
       find k' (merge_headers c user_headers) = find k' (_system_headers c)).
Proof.
  unfold merge_headers. rewrite StdMapFacts.find_insert_range, H.
  split; [reflexivity|]. split.
  - apply (FormatRequest_header _ _ _ _ _ _ _ (k, v)).
    apply StdMapFacts.find_In. unfold merge_headers.
    rewrite StdMapFacts.find_insert_range, H. reflexivity.
  - intros k' Hk'. rewrite StdMapFacts.find_insert_range, Hk'. reflexivity.
Qed.

Lemma C1_caller_header_wins_witness :
  find "host" [("host", "attacker.test")] = Some "attacker.test"
  /\ find "host" (merge_headers example_client [("host", "attacker.test")]) = Some "attacker.test".
Proof.
  split; [reflexivity|].
  apply (C1_caller_header_wins example_client "GET" "/" [] "" "" [("host", "attacker.test")] []
           "host" "attacker.test").
  reflexivity.
Defined.

(** ** The status line (C2) *)

Fixpoint forall_chars (p : ascii -> bool) (s : string) : bool :=
  match s with
  | EmptyString => true
  | String c s' => p c && forall_chars p s'
  end.

(** [s] is empty or starts with a character satisfying [p]. *)
Definition starts_with (p : ascii -> bool) (s : string) : Prop :=
  match s with
  | EmptyString => True
  | String c _ => p c = true
  end.

Definition is_token (t : string) : Prop :=
  t <> EmptyString /\ forall_chars (fun c => negb (isspace c)) t = true.

Definition is_digits (d : string) : Prop :=
  d <> EmptyString /\ forall_chars isdigit d = true.

Definition is_blank (w : string) : Prop :=
  w <> EmptyString /\ forall_chars isspace w = true.

Lemma skip_ws_app (w s : string) :
  forall_chars isspace w = true -> skip_ws (w ++ s) = skip_ws s.
Proof.
  induction w as [|c w IH]; simpl; [reflexivity|].
  intro H. apply andb_true_iff in H as [Hc Hw]. rewrite Hc. apply IH, Hw.
Qed.

Lemma skip_ws_nonspace (c : ascii) (s : string) :
  isspace c = false -> skip_ws (String c s) = String c s.
Proof. simpl. intros ->. reflexivity. Qed.

Lemma span_app (p : ascii -> bool) (t rest : string) :
  forall_chars p t = true -> starts_with (fun c => negb (p c)) rest ->
  span p (t ++ rest) = (t, rest).
Proof.
  intros Ht Hr. induction t as [|c t IH]; simpl.
  - destruct rest as [|c rest]; [reflexivity|]. simpl in Hr |- *.
    apply negb_true_iff in Hr. rewrite Hr. reflexivity.
  - simpl in Ht. apply andb_true_iff in Ht as [Hc Ht]. rewrite Hc, (IH Ht). reflexivity.
Qed.

Lemma digits_value_nonneg (acc : Z) (s : string) : (0 <= acc)%Z -> (0 <= digits_value acc s)%Z.
Proof.
  revert acc; induction s as [|c s IH]; intros acc H; simpl; [exact H|].
  apply IH. lia.
Qed.

Lemma digit_not_space (c : ascii) : isdigit c = true -> isspace c = false.
Proof.
  unfold isdigit, isspace. intro H.
  apply andb_true_iff in H as [H1 H2]. apply Nat.leb_le in H1, H2.
  apply orb_false_iff. split.
  - apply Nat.eqb_neq. lia.
  - apply andb_false_iff. right. apply Nat.leb_gt. lia.
Qed.

Lemma space_not_digit (c : ascii) : isspace c = true -> isdigit c = false.
Proof.
  intro H. destruct (isdigit c) eqn:E; [|reflexivity].
  rewrite (digit_not_space c E) in H. discriminate.
Qed.

Lemma extract_string_token (w t rest pv : string) :
  forall_chars isspace w = true -> is_token t -> starts_with isspace rest ->
  extract_string (mkIstream (w ++ t ++ rest) false) pv = (mkIstream rest false, t).
Proof.
  intros Hw [Hne Ht] Hr. unfold extract_string. cbn [is_fail is_rest].
  rewrite skip_ws_app by exact Hw.
  assert (Hr' : starts_with (fun c => negb (negb (isspace c))) rest)
    by (destruct rest; [exact I|]; simpl in Hr |- *; rewrite Hr; reflexivity).
  pose proof (span_app _ t rest Ht Hr') as E.
  destruct t as [|c t']; [contradiction|].
  simpl in Ht. apply andb_true_iff in Ht as [Hc _]. apply negb_true_iff in Hc.
  cbn [String.append] in E |- *. rewrite skip_ws_nonspace by exact Hc.
  cbv beta iota zeta. rewrite E. reflexivity.
Qed.

Lemma extract_int_digits (w d rest : string) (n : Z) :
  forall_chars isspace w = true -> is_digits d -> starts_with isspace rest ->
  (digits_value 0 d <= INT_MAX)%Z ->
  extract_int (mkIstream (w ++ d ++ rest) false) n = (mkIstream rest false, digits_value 0 d).
Proof.
  intros Hw [Hne Hd] Hr Hmax. unfold extract_int. cbn [is_fail is_rest].
  rewrite skip_ws_app by exact Hw.
  assert (Hr' : starts_with (fun c => negb (isdigit c)) rest)
    by (destruct rest; [exact I|]; simpl in Hr |- *; rewrite (space_not_digit _ Hr); reflexivity).
  pose proof (span_app _ d rest Hd Hr') as E.
  pose proof (digits_value_nonneg 0 d (Z.le_refl 0)) as Hpos.
  destruct d as [|c d']; [contradiction|].
  simpl in Hd. apply andb_true_iff in Hd as [Hc _].
  cbn [String.append] in E |- *. rewrite skip_ws_nonspace by exact (digit_not_space c Hc).
  cbv beta iota zeta. unfold read_sign.
  destruct (Ascii.eqb_spec c "-") as [->|_]; [discriminate Hc|].
  destruct (Ascii.eqb_spec c "+") as [->|_]; [discriminate Hc|].
  rewrite E. cbv beta iota zeta.
  replace (Z.ltb (digits_value 0 (String c d')) INT_MIN) with false
    by (symmetry; apply Z.ltb_ge; unfold INT_MIN; lia).
  replace (Z.ltb INT_MAX (digits_value 0 (String c d'))) with false
    by (symmetry; apply Z.ltb_ge; lia).
  reflexivity.
Qed.

(** Counterexample to C2: the status text is the third token only. *)
Lemma C2_status_text_is_one_token :
  ParseResponse (with_raw empty_response ("HTTP/1.1 404 Not Found" ++ CRLF ++ CRLF))
  = Some (OK, mkHTTPResponse ("HTTP/1.1 404 Not Found" ++ CRLF ++ CRLF)
                "HTTP/1.1" 404%Z "Not" [] [] "")
  /\ _status (parse_status "HTTP/1.1 404 Not Found" empty_response) <> "Not Found".
Proof. vm_compute. split; [reflexivity|discriminate]. Qed.

(** C2 (amended): the status line is read by three stream extractions: the
    protocol version is the first whitespace-delimited token, the status
    code the number read from the second, and the status text only the third
    token; whatever follows the third token is dropped. *)
Theorem C2_status_line (r : HTTPResponse) (w0 pv w1 code w2 st rest : string)
    (Hw0 : forall_chars isspace w0 = true) (Hpv : is_token pv)
    (Hw1 : is_blank w1) (Hcode : is_digits code) (Hw2 : is_blank w2)
    (Hst : is_token st) (Hrest : starts_with isspace rest)
    (Hmax : (digits_value 0 code <= INT_MAX)%Z) :
  parse_line STATUS 0%Z r (w0 ++ pv ++ w1 ++ code ++ w2 ++ st ++ rest)
  = Some (HEADERS, 0%Z, with_status r pv (digits_value 0 code) st).
Proof.
  destruct Hw1 as [Hw1ne Hw1], Hw2 as [Hw2ne Hw2].
  assert (Hs1 : starts_with isspace (w1 ++ code ++ w2 ++ st ++ rest))
    by (destruct w1; [contradiction|]; simpl in Hw1 |- *; apply andb_true_iff in Hw1; tauto).
  assert (Hs2 : starts_with isspace (w2 ++ st ++ rest))
    by (destruct w2; [contradiction|]; simpl in Hw2 |- *; apply andb_true_iff in Hw2; tauto).
  unfold parse_line, parse_status.
  rewrite (extract_string_token w0 pv _ _ Hw0 Hpv Hs1).
  rewrite (extract_int_digits w1 code _ _ Hw1 Hcode Hs2 Hmax).
  rewrite (extract_string_token w2 st rest _ Hw2 Hst Hrest).
  reflexivity.
Qed.

Lemma C2_status_line_witness :
  parse_line STATUS 0%Z empty_response ("HTTP/1.1" ++ " " ++ "404" ++ " " ++ "Not" ++ " Found")
  = Some (HEADERS, 0%Z, with_status empty_response "HTTP/1.1" 404%Z "Not").
Proof.
  apply (C2_status_line empty_response "" "HTTP/1.1" " " "404" " " "Not" " Found");
    (split; [discriminate|reflexivity]) || reflexivity || (vm_compute; discriminate).
Defined.

(** ** The body (C3) *)

(** Counterexample to C3: with content-length 2 and the line ["a"], the
    accumulated length is content-length minus one and a CRLF is still
    appended; the body ends up longer than content-length. *)
Lemma C3_crlf_at_length_minus_one :
  parse_line BODY 2%Z empty_response "a" = Some (BODY, 2%Z, with_data empty_response ("a" ++ CRLF))
  /\ option_map (fun x => _data (snd x))
       (ParseResponse (with_raw empty_response
          ("HTTP/1.1 200 OK" ++ CRLF ++ "content-length: 2" ++ CRLF ++ CRLF ++ "a")))
     = Some ("a" ++ CRLF).
Proof. vm_compute. split; reflexivity. Qed.

(** C3 (amended): in the BODY state the line is appended, then a CRLF is
    appended exactly when the accumulated body length (line included) is
    strictly below the parsed content-length; nothing else changes. *)
Theorem C3_body_line (content_length : Z) (r : HTTPResponse) (line : string) :
  exists r',
    parse_line BODY content_length r line = Some (BODY, content_length, r')
    /\ _raw r' = _raw r /\ _protover r' = _protover r /\ _code r' = _code r
    /\ _status r' = _status r /\ _headers r' = _headers r /\ _cookies r' = _cookies r
    /\ (((Z.of_nat (String.length (_data r ++ line)) < content_length)%Z
         /\ _data r' = _data r ++ line ++ CRLF)
        \/ ((content_length <= Z.of_nat (String.length (_data r ++ line)))%Z
            /\ _data r' = _data r ++ line)).
Proof.
  unfold parse_line, parse_body.
  destruct (Z.ltb_spec (Z.of_nat (String.length (_data r ++ line))) content_length) as [Hlt|Hge].
  - eexists. split; [reflexivity|]. cbn. repeat split.
    left. split; [exact Hlt|]. apply str_app_assoc.
  - eexists. split; [reflexivity|]. cbn. repeat split.
    right. split; [exact Hge|reflexivity].
Qed.

(** ** Cookies in the response (C4) *)

Definition no_char (ch : ascii) (s : string) : bool :=
  forall_chars (fun x => negb (Ascii.eqb ch x)) s.

Lemma find_char_app (ch : ascii) (a b : string) :
  no_char ch a = true -> find_char ch (a ++ String ch b) = Some (String.length a).
Proof.
  induction a as [|x a IH]; simpl; intro H.
  - rewrite Ascii.eqb_refl. reflexivity.
  - apply andb_true_iff in H as [Hx Ha]. apply negb_true_iff in Hx.
    rewrite Hx, (IH Ha). reflexivity.
Qed.

Lemma find_char_none (ch : ascii) (a : string) : no_char ch a = true -> find_char ch a = None.
Proof.
  induction a as [|x a IH]; simpl; intro H; [reflexivity|].
  apply andb_true_iff in H as [Hx Ha]. apply negb_true_iff in Hx.
  rewrite Hx, (IH Ha). reflexivity.
Qed.

Lemma str_take_app (a b : string) : str_take (String.length a) (a ++ b) = a.
Proof. induction a; simpl; congruence. Qed.

Lemma str_drop_app (a b : string) (n : nat) : str_drop (String.length a + n) (a ++ b) = str_drop n b.
Proof. induction a; simpl; auto. Qed.

Lemma str_length_drop_le (n : nat) (s : string) : n <= String.length s ->
  String.length (str_drop n s) = String.length s - n.
Proof.
  revert s; induction n as [|n IH]; intros s H; [simpl; lia|].
  destruct s; simpl in *; [lia|]. apply IH. lia.
Qed.

Lemma parse_line_headers (content_length : Z) (r : HTTPResponse) (line : string) :
  line <> EmptyString ->
  parse_line HEADERS content_length r line
  = match parse_header line content_length r with
    | Some (cl, r') => Some (HEADERS, cl, r')
    | None => None
    end.
Proof. destruct line; [contradiction|reflexivity]. Qed.

(** The header value of a line [key:cvalue]: what follows the colon and one
    more character. *)
Lemma header_value (key : string) (c : ascii) (val : string) :
  no_char ":" key = true ->
  find_char ":" (key ++ ":" ++ String c val) = Some (String.length key)
  /\ str_take (String.length key) (key ++ ":" ++ String c val) = key
  /\ substr_from (String.length key + 2) (key ++ ":" ++ String c val) = Some val.
Proof.
  intro Hk. split; [|split].
  - apply (find_char_app ":" key (String c val) Hk).
  - apply str_take_app.
  - unfold substr_from. rewrite str_length_app. cbn [String.length String.append].
    replace (Nat.leb (String.length key + 2) (String.length key + S (S (String.length val))))
      with true by (symmetry; apply Nat.leb_le; lia).
    rewrite str_drop_app. reflexivity.
Qed.

Lemma parse_header_set_cookie (content_length : Z) (r : HTTPResponse)
    (key : string) (c : ascii) (cname v tail : string) :
  no_char ":" key = true -> str_map tolower key = "set-cookie" ->
  no_char "=" cname = true -> no_char ";" v = true ->
  (tail = EmptyString \/ exists t, tail = String ";" t) ->
  parse_header (key ++ ":" ++ String c (cname ++ "=" ++ v ++ tail)) content_length r
  = Some (content_length, with_cookies r (set cname v (_cookies r))).
Proof.
  intros Hkey Hlower Hname Hv Htail.
  destruct (header_value key c (cname ++ "=" ++ v ++ tail) Hkey) as [Hf [Ht Hs]].
  unfold parse_header. rewrite Hf, Ht, Hs, Hlower. cbn [String.eqb negb Ascii.eqb Bool.eqb].
  change ("=" ++ v ++ tail) with (String "=" (v ++ tail)).
  rewrite (find_char_app "=" cname (v ++ tail) Hname).
  rewrite str_take_app.
  replace (str_drop (String.length cname + 1) (cname ++ String "=" (v ++ tail))) with (v ++ tail)
    by (rewrite str_drop_app; reflexivity).
  destruct Htail as [->|[t ->]].
  - rewrite str_app_nil_r, (find_char_none ";" v Hv). reflexivity.
  - rewrite (find_char_app ";" v t Hv), str_take_app. reflexivity.
Qed.

(** C4: a [set-cookie] line (name lower-cased, one character skipped after
    the colon) whose value is [cname=v] followed by nothing or by [;] and
    attributes adds no header and maps [cname] to [v] in the cookies. *)
Theorem C4_set_cookie (content_length : Z) (r : HTTPResponse)
    (key : string) (c : ascii) (cname v tail : string)
    (Hkey : no_char ":" key = true) (Hlower : str_map tolower key = "set-cookie")
    (Hname : no_char "=" cname = true) (Hv : no_char ";" v = true)
    (Htail : tail = EmptyString \/ exists t, tail = String ";" t) :
  exists r',
    parse_line HEADERS content_length r (key ++ ":" ++ String c (cname ++ "=" ++ v ++ tail))
    = Some (HEADERS, content_length, r')
    /\ _headers r' = _headers r
    /\ find cname (_cookies r') = Some v
    /\ (forall x, x <> cname -> find x (_cookies r') = find x (_cookies r)).
Proof.
  exists (with_cookies r (set cname v (_cookies r))).
  rewrite parse_line_headers by (destruct key; discriminate).
  rewrite (parse_header_set_cookie content_length r key c cname v tail Hkey Hlower Hname Hv Htail).
  split; [reflexivity|]. split; [reflexivity|]. split.
  - apply StdMapFacts.find_set_same.
  - intros x Hx. apply StdMapFacts.find_set_other, Hx.
Qed.

(** The example of the spec: ["set-cookie: session=abc123; Path=/"]. *)
Lemma C4_set_cookie_witness :
  exists r',
    parse_line HEADERS 0%Z empty_response
      ("set-cookie" ++ ":" ++ String " " ("session" ++ "=" ++ "abc123" ++ "; Path=/"))
    = Some (HEADERS, 0%Z, r')
    /\ _headers r' = []
    /\ find "session" (_cookies r') = Some "abc123"
    /\ (forall x, x <> "session" -> find x (_cookies r') = None).
Proof.
  apply (C4_set_cookie 0%Z empty_response "set-cookie" " " "session" "abc123" "; Path=/");
    try reflexivity.
  right. exists " Path=/". reflexivity.
Defined.

(** A [set-cookie] value without [=] stores nothing. *)
Lemma set_cookie_without_eq (content_length : Z) (r : HTTPResponse)
    (key : string) (c : ascii) (val : string) :
  no_char ":" key = true -> str_map tolower key = "set-cookie" -> no_char "=" val = true ->
  parse_header (key ++ ":" ++ String c val) content_length r = Some (content_length, r).
Proof.
  intros Hkey Hlower Hval.
  destruct (header_value key c val Hkey) as [Hf [Ht Hs]].
  unfold parse_header. rewrite Hf, Ht, Hs, Hlower, (find_char_none "=" val Hval). reflexivity.
Qed.

(** ** The header value offset (C10) *)

(** C10 fails: on the header line ["x:"] the colon is the last character,
    [line.substr(pos + 2)] asks for position 3 of a 2-character string and
    throws [std::out_of_range]; the exception escapes [ParseResponse]. *)
Theorem C10_colon_last_throws :
  parse_header "x:" 0%Z empty_response = None
  /\ ParseResponse (with_raw empty_response
       ("HTTP/1.1 200 OK" ++ CRLF ++ "x:" ++ CRLF ++ CRLF)) = None.
Proof. vm_compute. split; reflexivity. Qed.

(** The offset stays in bounds exactly when the colon is not the last
    character: [parse_header] throws only then. *)
Lemma find_char_lt (ch : ascii) (line : string) (pos : nat) :
  find_char ch line = Some pos -> pos < String.length line.
Proof.
  revert pos; induction line as [|x line IH]; intro pos; simpl; [discriminate|].
  destruct (Ascii.eqb ch x); [intro H; injection H as <-; lia|].
  destruct (find_char ch line) as [p|] eqn:E; simpl; [|discriminate].
  intro H; injection H as <-. specialize (IH p eq_refl). lia.
Qed.

Lemma parse_header_throws_iff (line : string) (content_length : Z) (r : HTTPResponse) :
  parse_header line content_length r = None
  <-> exists pos, find_char ":" line = Some pos /\ String.length line = S pos.
Proof.
  pose proof (find_char_lt ":" line) as Hlt.
  unfold parse_header. destruct (find_char ":" line) as [pos|] eqn:E.
  - specialize (Hlt pos eq_refl). unfold substr_from.
    destruct (Nat.leb_spec (pos + 2) (String.length line)).
    + split; [|intros [p [Hp Hl]]; injection Hp as <-; lia].
      destruct (negb _); [destruct (String.eqb _ _); discriminate|].
      destruct (find_char "=" _); discriminate.
    + split; [intros _; exists pos; split; [reflexivity|lia]|reflexivity].
  - split; [discriminate|intros [p [Hp _]]; discriminate].
Qed.

(** ** [Receive] (C5) *)

Definition NUL_str : string := String NUL EmptyString.

(** C5 fails on a chunk with a NUL byte: [append(buffer)] stops at the NUL,
    so the raw buffer keeps ["a"] of the chunk ["a\0b"]. *)
Theorem C5_nul_truncates_chunk :
  recv_loop [Some ("a" ++ NUL_str ++ "b")] "" = (OK, "a")
  /\ option_map (fun x => _raw (snd x)) (Receive [Some ("a" ++ NUL_str ++ "b")] empty_response)
     = Some "a"
  /\ "a" <> "a" ++ NUL_str ++ "b".
Proof. vm_compute. split; [reflexivity|split; [reflexivity|discriminate]]. Qed.

Definition cat (l : list string) : string := fold_right String.append EmptyString l.

Lemma c_str_no_nul (s : string) : no_char NUL s = true -> c_str s = s.
Proof.
  unfold c_str. induction s as [|x s IH]; simpl; [reflexivity|].
  intro H. apply andb_true_iff in H as [Hx Hs].
  rewrite Ascii.eqb_sym, Hx. simpl. rewrite <- (IH Hs) at 2.
  destruct (span _ s); reflexivity.
Qed.

(** What does hold: the loop reads full 255-byte chunks and stops at the
    first shorter one, or fails at the first read error; the raw buffer is
    the chunks' C strings in order (the chunks themselves when they hold no
    NUL). *)
Lemma recv_loop_chunks (full : list string) (last : option string) (raw : string) :
  Forall (fun s => String.length s = 255) full ->
  (forall s, last = Some s -> String.length s <> 255) ->
  recv_loop (map Some full ++ [last]) raw
  = match last with
    | Some s => (OK, raw ++ cat (map c_str full) ++ c_str s)
    | None => (SOCKET_RECV, raw ++ cat (map c_str full))
    end.
Proof.
  intros Hfull Hlast. revert raw; induction Hfull as [|s full Hs Hfull IH]; intro raw; simpl.
  - destruct last as [s|]; simpl.
    + specialize (Hlast s eq_refl). apply Nat.eqb_neq in Hlast. rewrite Hlast. reflexivity.
    + rewrite str_app_nil_r. reflexivity.
  - rewrite Hs. simpl. rewrite IH. destruct last; rewrite !str_app_assoc; reflexivity.
Qed.

(** ** [Send] (C6) *)

Fixpoint str_repeat (n : nat) (c : ascii) : string :=
  match n with
  | O => EmptyString
  | S n' => String c (str_repeat n' c)
  end.

Lemma str_repeat_length (n : nat) (c : ascii) : String.length (str_repeat n c) = n.
Proof. induction n; simpl; congruence. Qed.

Lemma send_loop_zero (send : nat -> Z -> option Z) (fuel call : nat) (request : string) (idx : Z) :
  send_loop send fuel call request idx 0%Z = Some (OK, []).
Proof. destruct fuel; reflexivity. Qed.

(** C6 fails on a request of 2^32 bytes: [static_cast<int>(request.size())]
    is 0, the loop body never runs, and [Send] reports success without a
    single write, whatever the transport. *)
Theorem C6_request_of_4GiB_not_sent (send : nat -> Z -> option Z) :
  Send send (str_repeat (Z.to_nat (2 ^ 32)) "a") = Some (OK, [])
  /\ String.length (str_repeat (Z.to_nat (2 ^ 32)) "a") = Z.to_nat (2 ^ 32).
Proof.
  split; [|apply str_repeat_length].
  unfold Send. rewrite str_repeat_length, Z2Nat.id by (apply Z.pow_nonneg; lia).
  change (to_int (2 ^ 32)%Z) with 0%Z.
  apply send_loop_zero.
Qed.

Lemma str_take_drop (n : nat) (s : string) : str_take n s ++ str_drop n s = s.
Proof.
  revert s; induction n as [|n IH]; intro s; [reflexivity|].
  destruct s; simpl; [reflexivity|]. rewrite IH. reflexivity.
Qed.

Lemma str_drop_add (a b : nat) (s : string) : str_drop (a + b) s = str_drop b (str_drop a s).
Proof.
  revert s; induction a as [|a IH]; intro s; [reflexivity|].
  destruct s; simpl; [destruct b; reflexivity|apply IH].
Qed.

Lemma str_drop_length (s : string) : str_drop (String.length s) s = EmptyString.
Proof. induction s; simpl; auto. Qed.

(** The transport of the claim: a successful write of [n] requested bytes
    transfers between 1 and [n] bytes. *)
Definition progressing (send : nat -> Z -> option Z) : Prop :=
  forall i n k, send i n = Some k -> (1 <= k <= n)%Z.

(** What holds for requests that fit in an [int]: the loop delivers the
    bytes from [buf_idx] on, in order, and either succeeds having delivered
    all of them or stops at the first failed write. *)
Lemma send_loop_delivers (send : nat -> Z -> option Z) (Hsend : progressing send)
    (request : string) :
  forall fuel call idx rem,
    (0 <= idx)%Z -> (0 <= rem)%Z -> Z.to_nat rem <= fuel ->
    Z.of_nat (String.length request) = (idx + rem)%Z ->
    exists segs,
      (send_loop send fuel call request idx rem = Some (OK, map Some segs)
       /\ cat segs = str_drop (Z.to_nat idx) request)
      \/ (send_loop send fuel call request idx rem = Some (SOCKET_SEND, (map Some segs ++ [None])%list)
          /\ exists rest, cat segs ++ rest = str_drop (Z.to_nat idx) request).
Proof.
  induction fuel as [|fuel IH]; intros call idx rem Hidx Hrem Hfuel Hlen.
  - assert (rem = 0%Z) as -> by lia. exists []. left.
    split; [reflexivity|]. simpl.
    replace (Z.to_nat idx) with (String.length request) by lia.
    rewrite str_drop_length. reflexivity.
  - simpl. destruct (Z.eqb_spec rem 0) as [->|Hne].
    + exists []. left. split; [reflexivity|]. simpl.
      replace (Z.to_nat idx) with (String.length request) by lia.
      rewrite str_drop_length. reflexivity.
    + destruct (send call rem) as [k|] eqn:Hk.
      * pose proof (Hsend _ _ _ Hk) as Hkb.
        destruct (IH (S call) (idx + k)%Z (rem - k)%Z ltac:(lia) ltac:(lia) ltac:(lia) ltac:(lia))
          as [segs [[Heq Hcat]|[Heq [rest Hcat]]]]; rewrite Heq.
        -- exists (str_take (Z.to_nat k) (str_drop (Z.to_nat idx) request) :: segs). left.
           split; [reflexivity|]. simpl. rewrite Hcat.
           replace (Z.to_nat (idx + k)) with (Z.to_nat idx + Z.to_nat k) by lia.
           rewrite str_drop_add. apply str_take_drop.
        -- exists (str_take (Z.to_nat k) (str_drop (Z.to_nat idx) request) :: segs). right.
           split; [reflexivity|]. exists rest. simpl. rewrite str_app_assoc, Hcat.
           replace (Z.to_nat (idx + k)) with (Z.to_nat idx + Z.to_nat k) by lia.
           rewrite str_drop_add. apply str_take_drop.
      * exists []. right. split; [reflexivity|].
        exists (str_drop (Z.to_nat idx) request). reflexivity.
Qed.

(** [Send] on a request that fits in an [int], over a transport whose
    successful [send] writes between 1 and the requested number of bytes:
    the bytes go out in order, and [Send] either returns [OK] having
    written all of them or [SOCKET_SEND] at the first failed write, having
    written a prefix. *)
Lemma Send_delivers (send : nat -> Z -> option Z) (Hsend : progressing send) (request : string) :
  (Z.of_nat (String.length request) <= INT_MAX)%Z ->
  exists segs,
    (Send send request = Some (OK, map Some segs) /\ cat segs = request)
    \/ (Send send request = Some (SOCKET_SEND, (map Some segs ++ [None])%list)
        /\ exists rest, cat segs ++ rest = request).
Proof.
  intro Hmax. unfold Send.
  replace (to_int (Z.of_nat (String.length request))) with (Z.of_nat (String.length request)).
  - apply (send_loop_delivers send Hsend request); lia.
  - unfold to_int, INT_MAX in *. rewrite Z.mod_small by lia.
    destruct (Z.leb_spec (2 ^ 31) (Z.of_nat (String.length request))); lia.
Qed.

(** ** The query string (C8) *)

(** C8: with parameters the query string is [?] then [key=value&] for each
    parameter in iteration order, the last one included; without
    parameters it is empty; it sits between the path and the version on the
    request line that starts the request. *)
Theorem C8_query_string (method path : string) (query_params : Map) (data content_type : string)
    (headers cookies : Map) :
  format_query query_params
  = match query_params with
    | [] => EmptyString
    | _ => "?" ++ String.concat "" (map query_pair query_params)
    end
  /\ String.prefix (method ++ " " ++ path ++ format_query query_params ++ " " ++ HTTP_VERSION ++ CRLF)
       (FormatRequest method path query_params data content_type headers cookies) = true.
Proof.
  split.
  - destruct query_params as [|kv qp]; [reflexivity|].
    unfold format_query. apply (fold_append query_pair).
  - destruct (FormatRequest_ext method path query_params data content_type headers cookies)
      as [t ->].
    destruct (format_cookies_ext cookies (format_headers headers
      (method ++ " " ++ path ++ format_query query_params ++ " " ++ HTTP_VERSION ++ CRLF)))
      as [u ->].
    rewrite format_headers_eq.
    set (L := method ++ " " ++ path ++ format_query query_params ++ " " ++ HTTP_VERSION ++ CRLF).
    rewrite !str_app_assoc. apply prefix_app.
Qed.

Lemma C8_example :
  contains "?a=1&b=2&" (FormatRequest "GET" "/" [("a", "1"); ("b", "2")] "" "" [] []) = true
  /\ format_query [] = "".
Proof. vm_compute. split; reflexivity. Qed.

(** ** [ResolveHost] (C9) *)

Definition no_match (l : list addrinfo) : Prop := Forall (fun ai => ai_matches ai = false) l.

Lemma first_match_none (l : list addrinfo) : first_match l = None <-> no_match l.
Proof.
  unfold no_match. induction l as [|ai l IH]; simpl; [split; auto|].
  destruct (ai_matches ai) eqn:E; split; intro H; try discriminate.
  - inversion H; congruence.
  - constructor; [exact E|apply IH, H].
  - inversion H. apply IH. assumption.
Qed.

Lemma first_match_some (l : list addrinfo) (ai : addrinfo) :
  first_match l = Some ai
  <-> exists pre post, l = (pre ++ ai :: post)%list /\ no_match pre /\ ai_matches ai = true.
Proof.
  unfold no_match. induction l as [|a l IH]; simpl.
  - split; [discriminate|]. intros [[|? ?] [post [H _]]]; discriminate.
  - destruct (ai_matches a) eqn:E; split.
    + intro H; injection H as <-. exists [], l. auto.
    + intros [[|b pre] [post [Hl [Hpre Hai]]]]; simpl in Hl; injection Hl as -> ->;
        [reflexivity|]. inversion Hpre; congruence.
    + intro H. apply IH in H as [pre [post [-> [Hpre Hai]]]].
      exists (a :: pre), post. auto.
    + intros [[|b pre] [post [Hl [Hpre Hai]]]]; simpl in Hl; injection Hl as -> Hl;
        [congruence|]. apply IH. exists pre, post. inversion Hpre. auto.
Qed.

(** C9: [HOST_ADDRINFO] exactly when [getaddrinfo] fails; otherwise
    [HOST_NORESULT] exactly when no candidate is IPv4/stream/TCP; otherwise
    success, storing the address of the first matching candidate. *)
Theorem C9_resolve_host (getaddrinfo : string -> string -> option (list addrinfo))
    (c c' : HTTPClient) :
  let res := getaddrinfo (_unresolved_host c) (fmt_Z (_port c)) in
  (fst (ResolveHost getaddrinfo c) = HOST_ADDRINFO <-> res = None)
  /\ (fst (ResolveHost getaddrinfo c) = HOST_NORESULT <-> exists l, res = Some l /\ no_match l)
  /\ (ResolveHost getaddrinfo c = (OK, c')
      <-> exists l pre ai post,
            res = Some l /\ l = (pre ++ ai :: post)%list /\ no_match pre /\ ai_matches ai = true
            /\ c' = with_address c (str_take 16 (ai_addr ai))).
Proof.
  intro res. unfold ResolveHost. fold res.
  destruct res as [l|].
  - destruct (first_match l) as [ai|] eqn:E.
    + split; [split; discriminate|]. split.
      * split; [discriminate|]. intros [l' [H Hn]]. injection H as <-.
        apply first_match_none in Hn. congruence.
      * split.
        -- intro H. injection H as <-. apply first_match_some in E as [pre [post [Hl [Hp Ha]]]].
           exists l, pre, ai, post. auto.
        -- intros [l' [pre [ai' [post [H [Hl [Hp [Ha ->]]]]]]]]. injection H as <-.
           assert (first_match l = Some ai') as E'
             by (apply first_match_some; exists pre, post; auto).
           rewrite E in E'. injection E' as ->. reflexivity.
    + split; [split; discriminate|]. split.
      * split; [intros _; exists l; split; [reflexivity|apply first_match_none, E]|reflexivity].
      * split; [discriminate|]. intros [l' [pre [ai' [post [H [Hl [Hp [Ha _]]]]]]]].
        injection H as <-. assert (first_match l = Some ai') as E'
          by (apply first_match_some; exists pre, post; auto). congruence.
  - split; [split; reflexivity|]. split.
    + split; [discriminate|]. intros [l [H _]]; discriminate.
    + split; [discriminate|]. intros [l [pre [ai [post [H _]]]]]; discriminate.
Qed.

(** ** The cookie jar (C7) *)

Module CookieJar.

Import StdMapFacts.

Lemma ascii_compare_lt_trans (a b c : ascii) :
  Ascii.compare a b = Lt -> Ascii.compare b c = Lt -> Ascii.compare a c = Lt.
Proof. unfold Ascii.compare. rewrite !N.compare_lt_iff. lia. Qed.

Lemma ascii_compare_refl (a : ascii) : Ascii.compare a a = Eq.
Proof. unfold Ascii.compare. apply N.compare_refl. Qed.

Lemma string_compare_lt_trans (a b c : string) :
  String.compare a b = Lt -> String.compare b c = Lt -> String.compare a c = Lt.
Proof.
  revert b c; induction a as [|x a IH]; intros [|y b] [|z c]; simpl; intros H1 H2;
    try discriminate; try reflexivity.
  destruct (Ascii.compare x y) eqn:E1; try discriminate;
  destruct (Ascii.compare y z) eqn:E2; try discriminate.
  - apply Ascii.compare_eq_iff in E1, E2. subst. rewrite ascii_compare_refl. apply (IH _ _ H1 H2).
  - apply Ascii.compare_eq_iff in E1. subst. rewrite E2. reflexivity.
  - apply Ascii.compare_eq_iff in E2. subst. rewrite E1. reflexivity.
  - rewrite (ascii_compare_lt_trans _ _ _ E1 E2). reflexivity.
Qed.

Definition key_lt (a b : string * string) : Prop := String.compare (fst a) (fst b) = Lt.

#[local] Instance key_lt_trans : Transitive key_lt.
Proof. intros a b c. apply string_compare_lt_trans. Qed.

Lemma key_lt_neq (a b : string * string) : key_lt a b -> fst a <> fst b.
Proof. unfold key_lt. intros H E. rewrite E, string_compare_refl in H. discriminate. Qed.

Lemma set_HdRel (x : string * string) (k v : string) (m : Map) :
  HdRel key_lt x m -> key_lt x (k, v) -> HdRel key_lt x (set k v m).
Proof.
  intros Hm Hx. destruct m as [|[k2 v2] m]; simpl; [constructor; exact Hx|].
  destruct (String.compare k k2); constructor; try exact Hx.
  inversion Hm; assumption.
Qed.

(** [m[k] = v] keeps the map sorted by key. *)
Lemma set_sorted (k v : string) (m : Map) : Sorted key_lt m -> Sorted key_lt (set k v m).
Proof.
  induction m as [|[k' v'] m IH]; intro Hs; simpl; [repeat constructor|].
  inversion Hs as [|? ? Hs' Hhd]; subst.
  destruct (String.compare k k') eqn:E.
  - apply String.compare_eq_iff in E. subst k'.
    constructor; [exact Hs'|].
    destruct m as [|kv m]; constructor. inversion Hhd. assumption.
  - constructor; [exact Hs|]. constructor. exact E.
  - constructor; [apply IH, Hs'|]. apply set_HdRel; [exact Hhd|].
    unfold key_lt; simpl. rewrite String.compare_antisym, E. reflexivity.
Qed.

(** Setting keys that are all different from [k] does not touch [k]. *)
Lemma fold_set_other (k : string) (l m : Map) :
  (forall kv, In kv l -> fst kv <> k) ->
  find k (fold_left (fun acc kv => set (fst kv) (snd kv) acc) l m) = find k m.
Proof.
  revert m; induction l as [|kv l IH]; intros m H; simpl; [reflexivity|].
  rewrite IH by (intros; apply H; right; assumption).
  apply find_set_other. intro E. apply (H kv (or_introl eq_refl)). symmetry; exact E.
Qed.

Lemma fold_set_find (k v : string) (l m : Map) :
  StronglySorted key_lt l -> find k l = Some v ->
  find k (fold_left (fun acc kv => set (fst kv) (snd kv) acc) l m) = Some v.
Proof.
  revert m; induction l as [|[k' v'] l IH]; intros m Hs Hf; simpl in *; [discriminate|].
  inversion Hs as [|? ? Hs' Hall]; subst.
  destruct (String.eqb_spec k k') as [->|Hne].
  - injection Hf as ->. rewrite fold_set_other; [apply find_set_same|].
    intros kv Hin E. rewrite Forall_forall in Hall.
    apply (key_lt_neq _ _ (Hall kv Hin)). simpl. symmetry; exact E.
  - apply IH; assumption.
Qed.

Lemma find_none_notin (k : string) (l : Map) :
  find k l = None -> forall kv, In kv l -> fst kv <> k.
Proof.
  induction l as [|[k' v'] l IH]; simpl; [tauto|].
  destruct (String.eqb_spec k k'); [discriminate|].
  intros H kv [<-|Hin]; [simpl; congruence|apply IH; assumption].
Qed.

(** The parser only ever updates the response cookies with [m[k] = v]. *)
Lemma parse_header_sorted (line : string) (cl cl' : Z) (r r' : HTTPResponse) :
  parse_header line cl r = Some (cl', r') -> Sorted key_lt (_cookies r) -> Sorted key_lt (_cookies r').
Proof.
  unfold parse_header. intros H Hs.
  repeat match type of H with
         | context [match ?x with _ => _ end] => destruct x
         end;
    try discriminate; injection H as _ <-; try exact Hs; apply set_sorted, Hs.
Qed.

Lemma parse_status_cookies (line : string) (r : HTTPResponse) :
  _cookies (parse_status line r) = _cookies r.
Proof.
  unfold parse_status.
  destruct (extract_string _ _) as [ss1 pv]. destruct (extract_int _ _) as [ss2 code].
  destruct (extract_string _ _). reflexivity.
Qed.

Lemma parse_lines_sorted (lines : list string) (st st' : pstate) (cl cl' : Z) (r r' : HTTPResponse) :
  parse_lines lines st cl r = Some (st', cl', r') ->
  Sorted key_lt (_cookies r) -> Sorted key_lt (_cookies r').
Proof.
  revert st cl r; induction lines as [|line lines IH]; intros st cl r H Hs; simpl in H.
  - injection H as _ _ <-. exact Hs.
  - destruct (parse_line st cl r line) as [[[st1 cl1] r1]|] eqn:E; [|discriminate].
    apply (IH st1 cl1 r1 H). destruct st; simpl in E.
    + injection E as _ _ <-. rewrite parse_status_cookies. exact Hs.
    + destruct line as [|c line]; [injection E as _ _ <-; exact Hs|].
      destruct (parse_header (String c line) cl r) as [[cl2 r2]|] eqn:E2; [|discriminate].
      injection E as _ _ <-. exact (parse_header_sorted _ _ _ _ _ E2 Hs).
    + injection E as _ _ <-. unfold parse_body.
      destruct (Z.ltb _ _); exact Hs.
Qed.

Lemma Receive_sorted (reads : list (option string)) (r resp : HTTPResponse) (e : ECode) :
  Receive reads r = Some (e, resp) -> StronglySorted key_lt (_cookies resp).
Proof.
  intro H. apply Sorted_StronglySorted; [exact key_lt_trans|].
  unfold Receive in H. destruct (recv_loop reads _) as [[] raw];
    try (injection H as _ <-; constructor);
    unfold ParseResponse in H;
    destruct (parse_lines _ _ _ _) as [[[st cl] r']|] eqn:E; try discriminate;
    injection H as _ <-; apply (parse_lines_sorted _ _ _ _ _ _ _ E); constructor.
Qed.

End CookieJar.

Module CookieJarRequest.

Import StdMapFacts CookieJar.

Definition update_jar (c : HTTPClient) (resp : HTTPResponse) : HTTPClient :=
  with_system_cookies c (fold_left (fun acc kv => set (fst kv) (snd kv) acc)
                           (_cookies resp) (_system_cookies c)).

(** A call that returns either leaves the client as it was or, on success,
    copies the received cookies into the jar. *)
Lemma Request_cases (net : Net) (c c' : HTTPClient) (m p : string) (q : Map) (d ct : string)
    (uh uc : Map) (e : ECode) :
  Request net c m p q d ct uh uc = Some (e, c') ->
  c' = c \/ (e = OK /\ exists resp, Receive (net_recv net) empty_response = Some (OK, resp)
                                   /\ c' = update_jar c resp).
Proof.
  unfold Request. intro H.
  destruct (negb (Connect net)); [injection H as _ <-; left; reflexivity|].
  destruct (Send _ _) as [[[] tr]|]; try discriminate; try (injection H as _ <-; left; reflexivity).
  destruct (Receive (net_recv net) empty_response) as [[[] resp]|] eqn:E; try discriminate;
    injection H as <- <-; [right|left..]; try reflexivity.
  split; [reflexivity|]. exists resp. split; [reflexivity|]. reflexivity.
Qed.

(** A jar entry is sent with every request whose caller passes no cookie of
    that name. *)
Lemma jar_cookie_sent (c : HTTPClient) (name value : string) :
  find name (_system_cookies c) = Some value ->
  forall m p q d ct uh uc, find name uc = None ->
  exists line, contains ("cookie: " ++ line ++ CRLF) (request_bytes c m p q d ct uh uc) = true
               /\ contains (name ++ "=" ++ value ++ ";") line = true.
Proof.
  intros Hjar m p q d ct uh uc Huc.
  apply (FormatRequest_cookie m p q d ct _ _ (name, value)).
  apply find_In. unfold merge_cookies. rewrite find_insert_range, Huc. exact Hjar.
Qed.

(** A jar entry survives every call whose response sets no cookie of that
    name. *)
Lemma jar_cookie_kept (c : HTTPClient) (name value : string) :
  find name (_system_cookies c) = Some value ->
  forall net m p q d ct uh uc e c',
  Request net c m p q d ct uh uc = Some (e, c') ->
  (forall resp, Receive (net_recv net) empty_response = Some (OK, resp) ->
                find name (_cookies resp) = None) ->
  find name (_system_cookies c') = Some value.
Proof.
  intros Hjar net m p q d ct uh uc e c' Hreq Hnone.
  destruct (Request_cases _ _ _ _ _ _ _ _ _ _ _ Hreq) as [->|[_ [resp [Hr ->]]]]; [exact Hjar|].
  simpl. rewrite fold_set_other; [exact Hjar|].
  apply find_none_notin, Hnone, Hr.
Qed.

End CookieJarRequest.

Import StdMapFacts CookieJar CookieJarRequest.

Definition cookie_response : string :=
  "HTTP/1.1 200 OK" ++ CRLF ++ "set-cookie: session=abc123; Path=/" ++ CRLF ++ CRLF.

(** A peer that accepts every write in full and answers [cookie_response]. *)
Definition cookie_net : Net := mkNet true true (fun _ n => Some n) [Some cookie_response].

(** Counterexample to C7: after the first call the jar holds
    [session -> abc123], but a second call whose caller passes its own
    [session] cookie sends the caller's value and no [session=abc123;]. *)
Lemma C7_caller_cookie_wins :
  match Request cookie_net example_client "GET" "/" [] "" "" [] [] with
  | Some (OK, c1) =>
      find "session" (_system_cookies c1) = Some "abc123"
      /\ contains "session=abc123;" (request_bytes c1 "GET" "/" [] "" "" [] [("session", "mine")])
         = false
      /\ contains "session=mine;" (request_bytes c1 "GET" "/" [] "" "" [] [("session", "mine")])
         = true
  | _ => False
  end.
Proof. vm_compute. split; [reflexivity|split; reflexivity]. Qed.

(** C7 (amended): after a successful call whose parsed response has the
    cookie [name -> value], the jar maps [name] to [value]; from then on
    every request whose caller passes no cookie named [name] carries a
    [cookie: ] line containing [name=value;], and the entry stays until a
    later successful response sets [name] again.  A cookie the caller
    passes under [name] is the one kept in the merged cookies and sent
    ([std::map::insert] keeps existing keys). *)
Theorem C7_cookie_jar (net : Net) (c c' : HTTPClient) (m p : string) (q : Map) (d ct : string)
    (uh uc : Map) (resp : HTTPResponse) (name value : string)
    (Hreq : Request net c m p q d ct uh uc = Some (OK, c'))
    (Hresp : Receive (net_recv net) empty_response = Some (OK, resp))
    (Hck : find name (_cookies resp) = Some value) :
  find name (_system_cookies c') = Some value
  /\ (forall c2, find name (_system_cookies c2) = Some value ->
        (forall m2 p2 q2 d2 ct2 uh2 uc2, find name uc2 = None ->
           exists line,
             contains ("cookie: " ++ line ++ CRLF) (request_bytes c2 m2 p2 q2 d2 ct2 uh2 uc2) = true
             /\ contains (name ++ "=" ++ value ++ ";") line = true)
        /\ (forall net2 m2 p2 q2 d2 ct2 uh2 uc2 e c3,
              Request net2 c2 m2 p2 q2 d2 ct2 uh2 uc2 = Some (e, c3) ->
              (forall resp2, Receive (net_recv net2) empty_response = Some (OK, resp2) ->
                             find name (_cookies resp2) = None) ->
              find name (_system_cookies c3) = Some value)
        /\ (forall m2 p2 q2 d2 ct2 uh2 uc2 v2, find name uc2 = Some v2 ->
              find name (merge_cookies c2 uc2) = Some v2
              /\ exists line,
                   contains ("cookie: " ++ line ++ CRLF) (request_bytes c2 m2 p2 q2 d2 ct2 uh2 uc2) = true
                   /\ contains (name ++ "=" ++ v2 ++ ";") line = true)).
Proof.
  split.
  - destruct (Request_cases _ _ _ _ _ _ _ _ _ _ _ Hreq) as [->|[_ [resp' [Hr ->]]]].
    + unfold Request in Hreq.
      destruct (negb (Connect net)); [discriminate|].
      destruct (Send _ _) as [[[] tr]|]; try discriminate.
      rewrite Hresp in Hreq. injection Hreq as Hc.
      rewrite <- Hc. simpl. apply fold_set_find; [apply (Receive_sorted _ _ _ _ Hresp)|exact Hck].
    + rewrite Hresp in Hr. injection Hr as <-. simpl.
      apply fold_set_find; [apply (Receive_sorted _ _ _ _ Hresp)|exact Hck].
  - intros c2 Hc2. split; [|split].
    + apply jar_cookie_sent, Hc2.
    + intros net2 m2 p2 q2 d2 ct2 uh2 uc2 e c3. apply jar_cookie_kept, Hc2.
    + intros m2 p2 q2 d2 ct2 uh2 uc2 v2 Hu.
      assert (Hm : find name (merge_cookies c2 uc2) = Some v2)
        by (unfold merge_cookies; rewrite StdMapFacts.find_insert_range, Hu; reflexivity).
      split; [exact Hm|].
      destruct (FormatRequest_cookie m2 p2 q2 d2 ct2 (merge_headers c2 uh2) (merge_cookies c2 uc2)
                  (name, v2) (StdMapFacts.find_In _ _ _ Hm)) as [line [H1 H2]].
      exists line. split; [exact H1|exact H2].
Qed.

Lemma C7_cookie_jar_witness :
  exists c1 resp,
    Request cookie_net example_client "GET" "/" [] "" "" [] [] = Some (OK, c1)
    /\ Receive (net_recv cookie_net) empty_response = Some (OK, resp)
    /\ find "session" (_cookies resp) = Some "abc123"
    /\ find "session" (_system_cookies c1) = Some "abc123".
Proof.
  exists (with_system_cookies example_client [("session", "abc123")]).
  exists (mkHTTPResponse cookie_response "HTTP/1.1" 200%Z "OK" [] [("session", "abc123")] "").
  split; [vm_compute; reflexivity|]. split; [vm_compute; reflexivity|].
  split; [reflexivity|].
  apply (C7_cookie_jar cookie_net example_client
           (with_system_cookies example_client [("session", "abc123")])
           "GET" "/" [] "" "" [] []
           (mkHTTPResponse cookie_response "HTTP/1.1" 200%Z "OK" [] [("session", "abc123")] "")
           "session" "abc123"); vm_compute; reflexivity.
Defined.

(** * Further properties of the client *)

(** ** Splitting CR-free lines joined by CRLF *)

Lemma prefix_CRLF_other (x : ascii) (s : string) :
  x <> CR -> String.prefix CRLF (String x s) = false.
Proof.
  intro Hx. unfold CRLF. cbn [String.prefix].
  destruct (ascii_dec CR x) as [E|]; [congruence|reflexivity].
Qed.

Lemma no_char_cons (ch x : ascii) (s : string) :
  no_char ch (String x s) = true -> x <> ch /\ no_char ch s = true.
Proof.
  unfold no_char; cbn [forall_chars]. intro H. apply andb_true_iff in H as [Hx Hs].
  apply negb_true_iff, Ascii.eqb_neq in Hx. split; [congruence|exact Hs].
Qed.

Lemma index_CRLF_app (p rest : string) :
  no_char CR p = true -> String.index 0 CRLF (p ++ CRLF ++ rest) = Some (String.length p).
Proof.
  induction p as [|x p IH]; intro H.
  - cbn [String.append String.length]. pose proof (prefix_app CRLF rest) as Hp.
    destruct (CRLF ++ rest) as [|b s] eqn:E; [discriminate E|].
    cbn [String.index]. rewrite Hp. reflexivity.
  - apply no_char_cons in H as [Hx Hp].
    cbn [String.append String.length String.index].
    rewrite prefix_CRLF_other by exact Hx. rewrite (IH Hp). reflexivity.
Qed.

Lemma index_CRLF_none (p : string) : no_char CR p = true -> String.index 0 CRLF p = None.
Proof.
  induction p as [|x p IH]; intro H; [reflexivity|].
  apply no_char_cons in H as [Hx Hp].
  cbn [String.index]. rewrite prefix_CRLF_other by exact Hx. rewrite (IH Hp). reflexivity.
Qed.

Lemma concat_CRLF_length (pieces : list string) :
  length pieces <= S (String.length (String.concat CRLF pieces)).
Proof.
  induction pieces as [|p ps IH]; [simpl; lia|].
  destruct ps as [|q qs]; [simpl; lia|].
  change (String.concat CRLF (p :: q :: qs)) with (p ++ CRLF ++ String.concat CRLF (q :: qs)).
  rewrite !str_length_app. change (String.length CRLF) with 2.
  change (length (p :: q :: qs)) with (S (length (q :: qs))). lia.
Qed.

Lemma Split_aux_concat (pieces : list string) (fuel : nat) :
  pieces <> [] -> Forall (fun p => no_char CR p = true) pieces -> length pieces <= fuel ->
  Split_aux fuel (String.concat CRLF pieces) CRLF = pieces.
Proof.
  revert fuel; induction pieces as [|p [|q qs] IH]; intros fuel Hne Hcr Hfuel;
    [contradiction| |].
  - destruct fuel as [|fuel]; [simpl in Hfuel; lia|].
    inversion Hcr. cbn [String.concat Split_aux]. rewrite index_CRLF_none by assumption.
    reflexivity.
  - destruct fuel as [|fuel]; [simpl in Hfuel; lia|].
    inversion Hcr as [|? ? Hp Hrest]; subst.
    change (String.concat CRLF (p :: q :: qs)) with (p ++ CRLF ++ String.concat CRLF (q :: qs)).
    cbn [Split_aux]. rewrite (index_CRLF_app p _ Hp), str_take_app.
    replace (str_drop (String.length p + String.length CRLF) (p ++ CRLF ++ String.concat CRLF (q :: qs)))
      with (String.concat CRLF (q :: qs)) by (rewrite str_drop_app; reflexivity).
    rewrite IH; [reflexivity|discriminate|exact Hrest|simpl in Hfuel |- *; lia].
Qed.

Lemma Split_concat (pieces : list string) :
  pieces <> [] -> Forall (fun p => no_char CR p = true) pieces ->
  Split (String.concat CRLF pieces) CRLF = pieces.
Proof.
  intros Hne Hcr. unfold Split, CRLF at 2.
  apply Split_aux_concat; [exact Hne|exact Hcr|apply concat_CRLF_length].
Qed.

(** ** Parsing a well-formed response *)

Lemma parse_status_tokens (r : HTTPResponse) (pv code st : string)
    (Hpv : is_token pv) (Hcode : is_digits code) (Hst : is_token st)
    (Hmax : (digits_value 0 code <= INT_MAX)%Z) :
  parse_status (pv ++ " " ++ code ++ " " ++ st) r = with_status r pv (digits_value 0 code) st.
Proof.
  unfold parse_status.
  replace (pv ++ " " ++ code ++ " " ++ st) with ("" ++ pv ++ " " ++ code ++ " " ++ st ++ "")
    by (rewrite str_app_nil_r; reflexivity).
  rewrite (extract_string_token "" pv _ _ eq_refl Hpv) by exact eq_refl.
  rewrite (extract_int_digits " " code _ _ eq_refl Hcode) by first [exact eq_refl | exact Hmax].
  rewrite (extract_string_token " " st "" _ eq_refl Hst) by exact I.
  reflexivity.
Qed.

(** [std::atoi] reads a plain decimal numeral that fits in an [int] as its
    value. *)
Lemma atoi_digits (d : string) :
  is_digits d -> (digits_value 0 d <= INT_MAX)%Z -> atoi d = digits_value 0 d.
Proof.
  intros [Hne Hd] Hmax. unfold atoi.
  pose proof (digits_value_nonneg 0 d (Z.le_refl 0)) as Hpos.
  pose proof (span_app isdigit d "" Hd I) as E. rewrite str_app_nil_r in E.
  destruct d as [|c d']; [contradiction|].
  simpl in Hd. apply andb_true_iff in Hd as [Hc _].
  rewrite skip_ws_nonspace by exact (digit_not_space c Hc).
  unfold read_sign.
  destruct (Ascii.eqb_spec c "-") as [->|_]; [discriminate Hc|].
  destruct (Ascii.eqb_spec c "+") as [->|_]; [discriminate Hc|].
  rewrite E. unfold clamp, to_int, LONG_MIN, LONG_MAX, INT_MAX in *.
  rewrite Z.min_r, Z.max_r by lia. rewrite Z.mod_small by lia.
  destruct (Z.leb_spec (2 ^ 31) (digits_value 0 (String c d'))); lia.
Qed.

(** A header line [key: value] other than [set-cookie]: the value after
    [": "] is stored under the lower-cased name, replacing an earlier value of
    that name; a [content-length] line also sets the body bound to the
    [size_t] of [atoi] of the value. *)
Theorem parse_header_stores (content_length : Z) (r : HTTPResponse) (key : string)
    (c : ascii) (val : string)
    (Hkey : no_char ":" key = true) (Hcookie : str_map tolower key <> "set-cookie") :
  parse_header (key ++ ":" ++ String c val) content_length r
  = Some (if String.eqb (str_map tolower key) "content-length"
          then to_size_t (atoi val) else content_length,
          with_headers r (set (str_map tolower key) val (_headers r))).
Proof.
  destruct (header_value key c val Hkey) as [Hf [Ht Hs]].
  unfold parse_header. rewrite Hf, Ht, Hs.
  apply String.eqb_neq in Hcookie. rewrite Hcookie. cbn [negb].
  destruct (String.eqb _ "content-length"); reflexivity.
Qed.

Lemma parse_lines_app (l1 l2 : list string) (st : pstate) (cl : Z) (r : HTTPResponse) :
  parse_lines (l1 ++ l2) st cl r
  = match parse_lines l1 st cl r with
    | Some (st', cl', r') => parse_lines l2 st' cl' r'
    | None => None
    end.
Proof.
  revert st cl r; induction l1 as [|line l1 IH]; intros st cl r; simpl; [reflexivity|].
  destruct (parse_line st cl r line) as [[[st1 cl1] r1]|]; [apply IH|reflexivity].
Qed.

(** The condition on a header of a well-formed response: a lower-case
    name without [:] or CR that is neither [set-cookie] nor
    [content-length], and a value without CR. *)
Definition plain_header (kv : string * string) : Prop :=
  no_char ":" (fst kv) = true /\ no_char CR (fst kv) = true /\ no_char CR (snd kv) = true
  /\ str_map tolower (fst kv) = fst kv
  /\ fst kv <> "set-cookie" /\ fst kv <> "content-length".

Definition header_text (kv : string * string) : string := fst kv ++ ": " ++ snd kv.

Lemma parse_plain_headers (hs : Map) (cl : Z) (r : HTTPResponse) :
  Forall plain_header hs ->
  parse_lines (map header_text hs) HEADERS cl r
  = Some (HEADERS, cl, with_headers r (fold_left (fun acc kv => set (fst kv) (snd kv) acc)
                                         hs (_headers r))).
Proof.
  revert r; induction hs as [|[k v] hs IH]; intros r Hall; cbn [map parse_lines fold_left].
  - destruct r; reflexivity.
  - inversion Hall as [|? ? [Hk [_ [_ [Hl [Hsc Hcl]]]]] Hall']; subst. cbn [fst snd] in *.
    unfold header_text at 1; cbn [fst snd].
    rewrite parse_line_headers by (destruct k; discriminate).
    change (k ++ ": " ++ v) with (k ++ ":" ++ String " " v).
    rewrite (parse_header_stores cl r k " " v Hk) by (rewrite Hl; exact Hsc).
    rewrite Hl. apply String.eqb_neq in Hcl. rewrite Hcl.
    rewrite IH by exact Hall'. reflexivity.
Qed.

(** ** The body *)

Lemma parse_lines_body (bs : list string) (cl : Z) (r : HTTPResponse) :
  parse_lines bs BODY cl r
  = Some (BODY, cl, fold_left (fun r' line => parse_body line cl r') bs r).
Proof.
  revert r; induction bs as [|b bs IH]; intro r; [reflexivity|].
  cbn [parse_lines fold_left]. unfold parse_line. apply IH.
Qed.

Lemma fold_left_cons_eq {A B : Type} (f : A -> B -> A) (x : B) (l : list B) (a : A) :
  fold_left f (x :: l) a = fold_left f l (f a x).
Proof. reflexivity. Qed.

Lemma with_data_data (r : HTTPResponse) (d d' : string) :
  with_data (with_data r d) d' = with_data r d'.
Proof. reflexivity. Qed.

Lemma data_with_data (r : HTTPResponse) (d : string) : _data (with_data r d) = d.
Proof. reflexivity. Qed.

Lemma with_data_self (r : HTTPResponse) : with_data r (_data r) = r.
Proof. destruct r; reflexivity. Qed.

(** With the content-length equal to the length of the body, the body
    lines are joined back with the CRLFs the split removed: the data is
    the body exactly. *)
Theorem body_exact (bs : list string) (r : HTTPResponse) :
  bs <> [] ->
  parse_lines bs BODY (Z.of_nat (String.length (_data r ++ String.concat CRLF bs))) r
  = Some (BODY, Z.of_nat (String.length (_data r ++ String.concat CRLF bs)),
          with_data r (_data r ++ String.concat CRLF bs)).
Proof.
  intro Hne. rewrite parse_lines_body. f_equal. f_equal.
  set (cl := Z.of_nat _). assert (Hcl : cl = Z.of_nat (String.length (_data r ++ String.concat CRLF bs)))
    by reflexivity. clearbody cl.
  revert r Hcl; induction bs as [|b [|b' bs] IH]; intros r Hcl; [contradiction| |].
  - cbn [fold_left]. unfold parse_body. cbn [String.concat] in Hcl.
    rewrite Hcl, Z.ltb_irrefl. reflexivity.
  - rewrite fold_left_cons_eq.
    change (String.concat CRLF (b :: b' :: bs)) with (b ++ CRLF ++ String.concat CRLF (b' :: bs))
      in Hcl |- *.
    rewrite !str_length_app in Hcl.
    assert (Hlt : Z.ltb (Z.of_nat (String.length (_data r ++ b))) cl = true)
      by (apply Z.ltb_lt; rewrite str_length_app; change (String.length CRLF) with 2 in Hcl; lia).
    unfold parse_body at 2. rewrite Hlt.
    rewrite (IH ltac:(discriminate) (with_data r ((_data r ++ b) ++ CRLF))).
    + rewrite data_with_data, with_data_data, !str_app_assoc. reflexivity.
    + rewrite data_with_data, !str_length_app. change (String.length CRLF) with 2 in Hcl |- *. lia.
Qed.

(** Once the data has reached the content-length (in particular when the
    response has no content-length header, which leaves it at 0), no CRLF
    is put back: the body lines are concatenated with their line breaks
    lost. *)
Theorem body_past_length (bs : list string) (cl : Z) (r : HTTPResponse) :
  (cl <= Z.of_nat (String.length (_data r)))%Z ->
  parse_lines bs BODY cl r = Some (BODY, cl, with_data r (_data r ++ String.concat "" bs)).
Proof.
  intro Hle. rewrite parse_lines_body. f_equal. f_equal.
  revert r Hle; induction bs as [|b bs IH]; intros r Hle.
  - cbn. rewrite str_app_nil_r, with_data_self. reflexivity.
  - rewrite fold_left_cons_eq. unfold parse_body at 2.
    assert (Hge : Z.ltb (Z.of_nat (String.length (_data r ++ b))) cl = false)
      by (apply Z.ltb_ge; rewrite str_length_app; lia).
    rewrite Hge, IH by (rewrite data_with_data, str_length_app; lia).
    rewrite data_with_data, with_data_data, str_app_assoc.
    destruct bs; [cbn [String.concat]; rewrite str_app_nil_r|]; reflexivity.
Qed.

Lemma body_past_length_witness :
  parse_lines ["ab"; "c"] BODY 0%Z empty_response
  = Some (BODY, 0%Z, with_data empty_response ("" ++ String.concat "" ["ab"; "c"])).
Proof. apply (body_past_length ["ab"; "c"] 0%Z empty_response). simpl; lia. Defined.

(** ** A whole response *)

Lemma forall_chars_impl (p q : ascii -> bool) (s : string) :
  (forall x, p x = true -> q x = true) -> forall_chars p s = true -> forall_chars q s = true.
Proof.
  intro Hpq; induction s as [|x s IH]; cbn [forall_chars]; [reflexivity|].
  intro H; apply andb_true_iff in H as [Hx Hs]. rewrite (Hpq x Hx), (IH Hs). reflexivity.
Qed.

Lemma forall_chars_app (p : ascii -> bool) (a b : string) :
  forall_chars p (a ++ b) = forall_chars p a && forall_chars p b.
Proof.
  induction a as [|x a IH]; cbn [forall_chars String.append]; [reflexivity|].
  rewrite IH, andb_assoc. reflexivity.
Qed.

Lemma token_no_CR (t : string) : is_token t -> no_char CR t = true.
Proof.
  intros [_ Ht]. unfold no_char. revert Ht. apply forall_chars_impl.
  intros x Hx. apply negb_true_iff in Hx. apply negb_true_iff, Ascii.eqb_neq.
  intros <-. discriminate Hx.
Qed.

Lemma digits_no_CR (d : string) : is_digits d -> no_char CR d = true.
Proof.
  intros [_ Hd]. unfold no_char. revert Hd. apply forall_chars_impl.
  intros x Hx. apply negb_true_iff, Ascii.eqb_neq. intros <-. discriminate Hx.
Qed.

(** The text of a response as a server would send it: the status line, a
    [content-length] header, further headers, a blank line and the body,
    lines separated by CRLF. *)
Definition response_text (pv code st cls : string) (hs : Map) (bs : list string) : string :=
  String.concat CRLF ((pv ++ " " ++ code ++ " " ++ st) :: ("content-length: " ++ cls)
                      :: map header_text hs ++ "" :: bs).

Lemma parse_lines_status (line : string) (lines : list string) (cl : Z) (r : HTTPResponse) :
  parse_lines (line :: lines) STATUS cl r = parse_lines lines HEADERS cl (parse_status line r).
Proof. reflexivity. Qed.

Lemma parse_lines_blank (lines : list string) (cl : Z) (r : HTTPResponse) :
  parse_lines ("" :: lines) HEADERS cl r = parse_lines lines BODY cl r.
Proof. reflexivity. Qed.

Lemma parse_lines_header (line : string) (lines : list string) (cl cl' : Z) (r r' : HTTPResponse) :
  line <> EmptyString -> parse_header line cl r = Some (cl', r') ->
  parse_lines (line :: lines) HEADERS cl r = parse_lines lines HEADERS cl' r'.
Proof.
  intros Hne Hp. cbn [parse_lines]. rewrite parse_line_headers, Hp by exact Hne. reflexivity.
Qed.

(** Parsing a well-formed response recovers what was sent: the protocol
    version, the numeric code and the one-word status text from the status
    line, every header under its name (the last one of a name winning) and
    the body byte for byte, with no cookies. *)
Theorem ParseResponse_response_text (pv code st cls : string) (hs : Map) (bs : list string) :
  is_token pv -> is_digits code -> is_token st -> (digits_value 0 code <= INT_MAX)%Z ->
  is_digits cls -> digits_value 0 cls = Z.of_nat (String.length (String.concat CRLF bs)) ->
  (digits_value 0 cls <= INT_MAX)%Z ->
  Forall plain_header hs -> bs <> [] -> Forall (fun b => no_char CR b = true) bs ->
  ParseResponse (with_raw empty_response (response_text pv code st cls hs bs))
  = Some (OK, mkHTTPResponse (response_text pv code st cls hs bs) pv (digits_value 0 code) st
                (fold_left (fun acc kv => set (fst kv) (snd kv) acc) hs
                   (set "content-length" cls []))
                [] (String.concat CRLF bs)).
Proof.
  intros Hpv Hcode Hst Hmax Hcls Hlen Hclsmax Hhs Hbs HbsCR.
  unfold ParseResponse. cbn [_raw with_raw]. unfold response_text at 1.
  rewrite Split_concat.
  2: discriminate.
  2:{ constructor.
      - unfold no_char. rewrite !forall_chars_app.
        fold (no_char CR pv) (no_char CR code) (no_char CR st).
        rewrite (token_no_CR pv Hpv), (digits_no_CR code Hcode), (token_no_CR st Hst).
        reflexivity.
      - constructor.
        + unfold no_char. rewrite forall_chars_app. fold (no_char CR cls).
          rewrite (digits_no_CR cls Hcls). reflexivity.
        + apply Forall_app. split.
          * apply Forall_map. revert Hhs. apply Forall_impl.
            intros [k v] [_ [Hk [Hv _]]]. cbn [fst snd] in *. unfold header_text, no_char.
            cbn [fst snd]. rewrite forall_chars_app. fold (no_char CR k). rewrite Hk.
            cbn [forall_chars String.append]. fold (no_char CR v). rewrite Hv. reflexivity.
          * constructor; [reflexivity|exact HbsCR]. }
  rewrite parse_lines_status, parse_status_tokens by assumption.
  set (R0 := with_status (with_raw empty_response _) pv (digits_value 0 code) st).
  assert (Hcl : parse_header ("content-length: " ++ cls) 0%Z R0
                = Some (digits_value 0 cls, with_headers R0 (set "content-length" cls (_headers R0)))).
  { change ("content-length: " ++ cls) with ("content-length" ++ ":" ++ String " " cls).
    rewrite parse_header_stores by (reflexivity || discriminate).
    change (str_map tolower "content-length") with "content-length". cbn [String.eqb Ascii.eqb].
    rewrite atoi_digits by assumption. unfold to_size_t.
    pose proof (digits_value_nonneg 0 cls (Z.le_refl 0)). unfold INT_MAX in Hclsmax.
    rewrite Z.mod_small by lia. reflexivity. }
  rewrite (parse_lines_header ("content-length: " ++ cls) _ _ _ _ _ ltac:(discriminate) Hcl).
  rewrite parse_lines_app, parse_plain_headers by exact Hhs.
  rewrite parse_lines_blank, Hlen.
  match goal with |- context [parse_lines bs BODY ?c ?R] =>
    replace c with (Z.of_nat (String.length (_data R ++ String.concat CRLF bs))) by reflexivity;
    rewrite (body_exact bs R Hbs) end.
  reflexivity.
Qed.

Lemma ParseResponse_response_text_witness :
  ParseResponse (with_raw empty_response
    (response_text "HTTP/1.1" "200" "OK" "12" [("content-type", "text/plain")] ["hello"; "world"]))
  = Some (OK, mkHTTPResponse
      (response_text "HTTP/1.1" "200" "OK" "12" [("content-type", "text/plain")] ["hello"; "world"])
      "HTTP/1.1" 200%Z "OK"
      (fold_left (fun acc kv => set (fst kv) (snd kv) acc) [("content-type", "text/plain")]
         (set "content-length" "12" []))
      [] (String.concat CRLF ["hello"; "world"])).
Proof.
  change 200%Z with (digits_value 0 "200").
  apply (ParseResponse_response_text "HTTP/1.1" "200" "OK" "12"
           [("content-type", "text/plain")] ["hello"; "world"]);
    first [ split; [discriminate | reflexivity]
          | vm_compute; first [reflexivity | discriminate]
          | discriminate
          | repeat constructor; vm_compute; first [reflexivity | discriminate] ].
Defined.

(** ** Decimal numbers written by [fmt::format] and read by [atoi] *)

Ltac eval_digit :=
  lazymatch goal with
  | |- context [Z.of_nat (Ascii.nat_of_ascii ?a - 48)] =>
      let v := eval vm_compute in (Z.of_nat (Ascii.nat_of_ascii a - 48)) in
      change (Z.of_nat (Ascii.nat_of_ascii a - 48)) with v
  end.

Lemma digits_value_uint_acc (d : Decimal.uint) (acc : positive) :
  digits_value (Z.pos acc) (NilEmpty.string_of_uint d) = Z.pos (Pos.of_uint_acc d acc).
Proof.
  revert acc; induction d as [|d IH|d IH|d IH|d IH|d IH|d IH|d IH|d IH|d IH|d IH]; intro acc;
    cbn [NilEmpty.string_of_uint digits_value Pos.of_uint_acc]; [reflexivity|..];
    rewrite <- IH; f_equal; eval_digit; rewrite ?Pos2Z.inj_add, ?Pos2Z.inj_mul; lia.
Qed.

Lemma digits_value_uint (d : Decimal.uint) :
  digits_value 0 (NilZero.string_of_uint d) = Z.of_N (N.of_uint d).
Proof.
  assert (H : forall e, digits_value 0 (NilEmpty.string_of_uint e) = Z.of_N (Pos.of_uint e)).
  { clear d. intro d. induction d as [|d IH|d IH|d IH|d IH|d IH|d IH|d IH|d IH|d IH|d IH];
      cbn [NilEmpty.string_of_uint digits_value Pos.of_uint]; [reflexivity|..];
      eval_digit; [exact IH|..]; apply digits_value_uint_acc. }
  destruct d; [reflexivity|..]; apply H.
Qed.

Lemma digits_value_fmt_nat (n : nat) : digits_value 0 (fmt_nat n) = Z.of_nat n.
Proof.
  unfold fmt_nat. rewrite digits_value_uint, DecimalN.Unsigned.of_to. apply nat_N_Z.
Qed.

Lemma fmt_nat_digits (n : nat) : is_digits (fmt_nat n).
Proof.
  assert (H : forall d, forall_chars isdigit (NilEmpty.string_of_uint d) = true)
    by (induction d; cbn [NilEmpty.string_of_uint forall_chars]; auto).
  unfold fmt_nat. destruct (N.to_uint (N.of_nat n)); split; try discriminate; try reflexivity;
    apply H.
Qed.

(** ** Response lines, one at a time *)

(** A header line [key: value] other than [set-cookie], in the HEADERS
    state: the value after [": "] is stored under the lower-cased name,
    replacing any earlier value of that name, and the parser stays in the
    HEADERS state; a [content-length] line also sets the body bound to
    [atoi] of the value (as a [size_t]), any other line keeps it. *)
Theorem header_line_parsed (content_length : Z) (r : HTTPResponse) (key val : string) :
  no_char ":" key = true -> str_map tolower key <> "set-cookie" ->
  parse_line HEADERS content_length r (key ++ ": " ++ val)
  = Some (HEADERS,
          if String.eqb (str_map tolower key) "content-length"
          then to_size_t (atoi val) else content_length,
          with_headers r (set (str_map tolower key) val (_headers r))).
Proof.
  intros Hkey Hcookie.
  rewrite parse_line_headers by (destruct key; discriminate).
  change (key ++ ": " ++ val) with (key ++ ":" ++ String " " val).
  rewrite (parse_header_stores content_length r key " " val Hkey Hcookie). reflexivity.
Qed.

Lemma header_line_parsed_witness :
  parse_line HEADERS 7%Z empty_response ("Content-Type" ++ ": " ++ "text/html")
  = Some (HEADERS, 7%Z, with_headers empty_response [("content-type", "text/html")]).
Proof. apply (header_line_parsed 7%Z empty_response "Content-Type" "text/html"); [reflexivity|discriminate]. Defined.

(** Header lines without a colon are skipped: the response, the body
    bound and the state are left as they were. *)
Theorem header_lines_without_colon (lines : list string) (content_length : Z) (r : HTTPResponse) :
  Forall (fun l => l <> EmptyString /\ no_char ":" l = true) lines ->
  parse_lines lines HEADERS content_length r = Some (HEADERS, content_length, r).
Proof.
  induction 1 as [|l lines [Hne Hl] _ IH]; [reflexivity|].
  rewrite (parse_lines_header l lines content_length content_length r r Hne); [exact IH|].
  unfold parse_header. rewrite (find_char_none ":" l Hl). reflexivity.
Qed.

Lemma header_lines_without_colon_witness :
  parse_lines ["garbage"; "more garbage"] HEADERS 3%Z empty_response
  = Some (HEADERS, 3%Z, empty_response).
Proof.
  apply header_lines_without_colon. repeat constructor; (discriminate || reflexivity).
Defined.

(** A status line whose second word does not start with a sign or a digit
    (["HTTP/1.1 OK"]): [ss >> _code] fails and stores 0, and the failed
    stream leaves [_status] untouched; only the protocol version is read. *)
Theorem status_code_not_a_number (content_length : Z) (r : HTTPResponse) (pv : string)
    (c : ascii) (rest : string) :
  is_token pv -> isspace c = false -> isdigit c = false -> c <> "-"%char -> c <> "+"%char ->
  parse_line STATUS content_length r (pv ++ " " ++ String c rest)
  = Some (HEADERS, content_length, with_status r pv 0%Z (_status r)).
Proof.
  intros Hpv Hsp Hdg Hm Hp. unfold parse_line, parse_status.
  assert (Hs : starts_with isspace (" " ++ String c rest)) by reflexivity.
  change (pv ++ " " ++ String c rest) with ("" ++ pv ++ " " ++ String c rest).
  rewrite (extract_string_token "" pv (" " ++ String c rest) (_protover r) eq_refl Hpv Hs).
  unfold extract_int. cbn [is_fail is_rest].
  rewrite (skip_ws_app " " (String c rest) eq_refl), (skip_ws_nonspace c rest Hsp).
  unfold read_sign.
  destruct (Ascii.eqb_spec c "-") as [E|_]; [contradiction|].
  destruct (Ascii.eqb_spec c "+") as [E|_]; [contradiction|].
  cbn [span]. rewrite Hdg. reflexivity.
Qed.

Lemma status_code_not_a_number_witness :
  parse_line STATUS 0%Z empty_response ("HTTP/1.1" ++ " " ++ "OK")
  = Some (HEADERS, 0%Z, with_status empty_response "HTTP/1.1" 0%Z "").
Proof.
  apply (status_code_not_a_number 0%Z empty_response "HTTP/1.1" "O" "K");
    first [split; [discriminate|reflexivity] | reflexivity | discriminate].
Defined.

(** ** The parser never throws but on a bare colon *)

Lemma parse_lines_none (lines : list string) (st : pstate) (cl : Z) (r : HTTPResponse) :
  parse_lines lines st cl r = None ->
  exists line, In line lines
               /\ exists pos, find_char ":" line = Some pos /\ String.length line = S pos.
Proof.
  revert st cl r; induction lines as [|line lines IH]; intros st cl r H; [discriminate|].
  cbn [parse_lines] in H.
  destruct (parse_line st cl r line) as [[[st' cl'] r']|] eqn:E.
  - destruct (IH _ _ _ H) as [l [Hin Hl]]. exists l. split; [right; exact Hin|exact Hl].
  - exists line. split; [left; reflexivity|].
    destruct st; try discriminate.
    destruct line as [|x line']; [discriminate|].
    rewrite parse_line_headers in E by discriminate.
    destruct (parse_header (String x line') cl r) as [[]|] eqn:Hp; [discriminate|].
    apply parse_header_throws_iff in Hp. exact Hp.
Qed.

(** [ParseResponse] lets an exception escape only when some line of the
    response has its first colon as its last character ([substr(pos + 2)]
    past the end); on every other response it returns [OK]. *)
Theorem ParseResponse_throws_only_on_bare_colon (r : HTTPResponse) :
  ParseResponse r = None ->
  exists line, In line (Split (_raw r) CRLF)
               /\ exists pos, find_char ":" line = Some pos /\ String.length line = S pos.
Proof.
  unfold ParseResponse. intro H.
  destruct (parse_lines (Split (_raw r) CRLF) STATUS 0%Z r) as [[[]]|] eqn:E; [discriminate|].
  exact (parse_lines_none _ _ _ _ E).
Qed.

Lemma ParseResponse_throws_only_on_bare_colon_witness :
  exists line, In line (Split (_raw (with_raw empty_response ("HTTP/1.1 200 OK" ++ CRLF ++ "X:"))) CRLF)
               /\ exists pos, find_char ":" line = Some pos /\ String.length line = S pos.
Proof.
  apply ParseResponse_throws_only_on_bare_colon. vm_compute. reflexivity.
Defined.

(** ** The length header, written and read back *)

(** The [content-length] line [FormatRequest] writes for a body of [n]
    bytes ([fmt::format("content-length: {}", n)]), parsed as a header
    line, sets the body bound back to [n], for any [n] that fits in an
    [int]. *)
Theorem content_length_round_trip (n : nat) (content_length : Z) (r : HTTPResponse) :
  (Z.of_nat n <= INT_MAX)%Z ->
  parse_line HEADERS content_length r ("content-length: " ++ fmt_nat n)
  = Some (HEADERS, Z.of_nat n, with_headers r (set "content-length" (fmt_nat n) (_headers r))).
Proof.
  intro Hmax.
  rewrite parse_line_headers by discriminate.
  change ("content-length: " ++ fmt_nat n) with ("content-length" ++ ":" ++ String " " (fmt_nat n)).
  rewrite parse_header_stores by (reflexivity || discriminate).
  change (str_map tolower "content-length") with "content-length". cbn [String.eqb Ascii.eqb].
  rewrite atoi_digits by (apply fmt_nat_digits || (rewrite digits_value_fmt_nat; exact Hmax)).
  rewrite digits_value_fmt_nat. unfold to_size_t, INT_MAX in *.
  rewrite Z.mod_small by lia. reflexivity.
Qed.

Lemma content_length_round_trip_witness :
  parse_line HEADERS 0%Z empty_response ("content-length: " ++ fmt_nat 1234)
  = Some (HEADERS, 1234%Z, with_headers empty_response [("content-length", "1234")]).
Proof. apply (content_length_round_trip 1234 0%Z empty_response). unfold INT_MAX. lia. Defined.

(** ** The end of a request *)

Lemma format_headers_CRLF (hs : Map) (h : string) :
  exists h', format_headers hs (h ++ CRLF) = h' ++ CRLF.
Proof.
  unfold format_headers. revert h; induction hs as [|[k v] hs IH]; intro h; cbn [fold_left].
  - exists h. reflexivity.
  - cbn [fst snd]. rewrite str_app_assoc.
    replace (CRLF ++ k ++ ": " ++ v ++ CRLF) with ((CRLF ++ k ++ ": " ++ v) ++ CRLF)
      by (rewrite !str_app_assoc; reflexivity).
    rewrite <- str_app_assoc. apply IH.
Qed.

Lemma format_cookies_CRLF (ck : Map) (h : string) :
  exists h', format_cookies ck (h ++ CRLF) = h' ++ CRLF.
Proof.
  destruct ck as [|kv ck]; [exists h; reflexivity|].
  rewrite format_cookies_cons. eexists. rewrite <- !str_app_assoc. reflexivity.
Qed.

(** Whatever the headers and cookies, the request ends with an empty line
    followed by the data; when there is data, the two lines before the
    empty line are [content-length] with the data's length in decimal and
    [content-type]. *)
Theorem FormatRequest_ends_with_data (method path : string) (query_params : Map)
    (data content_type : string) (headers cookies : Map) :
  exists head,
    FormatRequest method path query_params data content_type headers cookies
    = head ++ CRLF
      ++ match data with
         | EmptyString => CRLF
         | _ => "content-length: " ++ fmt_nat (String.length data) ++ CRLF
                ++ "content-type: " ++ content_type ++ CRLF ++ CRLF ++ data
         end.
Proof.
  unfold FormatRequest.
  destruct (format_headers_CRLF headers
              (method ++ " " ++ path ++ format_query query_params ++ " " ++ HTTP_VERSION))
    as [h1 H1].
  replace (method ++ " " ++ path ++ format_query query_params ++ " " ++ HTTP_VERSION ++ CRLF)
    with ((method ++ " " ++ path ++ format_query query_params ++ " " ++ HTTP_VERSION) ++ CRLF)
    by (rewrite !str_app_assoc; reflexivity).
  rewrite H1.
  destruct (format_cookies_CRLF cookies h1) as [h2 ->].
  exists h2. destruct data as [|a d]; cbn [format_data_headers]; rewrite !str_app_assoc;
    reflexivity.
Qed.

(** ** The [host] header of a new client *)

(** A peer that refuses the connection. *)
Definition refusing_net : Net := mkNet true false (fun _ n => Some n) [].

(** A peer that accepts every write in full and answers with one cookie. *)
Definition answering_net : Net :=
  mkNet true true (fun _ n => Some n)
    [Some ("HTTP/1.1 200 OK" ++ CRLF ++ "set-cookie: id=7" ++ CRLF ++ CRLF)].

(** The persistent [host] header is [<host>:<port>] of the client. *)
Definition host_header_ok (c : HTTPClient) : Prop :=
  find "host" (_system_headers c) = Some (_unresolved_host c ++ ":" ++ fmt_Z (_port c)).

(** The constructor sets the persistent header [host: <host>:<port>];
    neither [ResolveHost] nor [Request], whatever their outcome, changes
    it; and a client that has it sends the line [host: <host>:<port>] on
    every request where the caller passes no [host] header of its own. *)
Theorem host_header_sent (host : string) (port : Z) :
  host_header_ok (new_HTTPClient host port)
  /\ (forall getaddrinfo c e c', host_header_ok c -> ResolveHost getaddrinfo c = (e, c') ->
        host_header_ok c')
  /\ (forall net c method path query_params data content_type user_headers user_cookies e c',
        host_header_ok c ->
        Request net c method path query_params data content_type user_headers user_cookies
        = Some (e, c') ->
        host_header_ok c')
  /\ (forall c method path query_params data content_type user_headers user_cookies,
        host_header_ok c -> find "host" user_headers = None ->
        contains ("host: " ++ _unresolved_host c ++ ":" ++ fmt_Z (_port c) ++ CRLF)
          (request_bytes c method path query_params data content_type user_headers user_cookies)
        = true).
Proof.
  split; [|split; [|split]].
  - apply StdMapFacts.find_set_same.
  - intros g c e c' Hc H. unfold ResolveHost in H.
    destruct (g _ _) as [l|]; [destruct (first_match l)|]; injection H as <- <-; exact Hc.
  - intros net c m p q d ct uh uc e c' Hc H.
    destruct (Request_cases _ _ _ _ _ _ _ _ _ _ _ H) as [->|[_ [resp [_ ->]]]]; exact Hc.
  - intros c m p q d ct uh uc Hc Hu. unfold request_bytes.
    pose proof (FormatRequest_header m p q d ct (merge_headers c uh) (merge_cookies c uc)
                  ("host", _unresolved_host c ++ ":" ++ fmt_Z (_port c))) as H.
    unfold header_line in H. cbn [fst snd] in H. rewrite !str_app_assoc in H.
    apply H, StdMapFacts.find_In. unfold merge_headers.
    rewrite StdMapFacts.find_insert_range, Hu. exact Hc.
Qed.

(** The client after a successful call that set a cookie still sends its
    [host] line. *)
Lemma host_header_sent_witness :
  contains ("host: " ++ "example.com" ++ ":" ++ fmt_Z 80 ++ CRLF)
    (request_bytes (with_system_cookies example_client [("id", "7")]) "GET" "/" [] "" ""
       [("accept", "*/*")] [])
  = true.
Proof.
  destruct (host_header_sent "example.com" 80) as [H0 [_ [HR HS]]].
  apply (HS (with_system_cookies example_client [("id", "7")]) "GET" "/" [] "" ""
           [("accept", "*/*")] []).
  - apply (HR answering_net example_client "GET" "/" [] "" "" [] [] OK); [exact H0|].
    vm_compute. reflexivity.
  - reflexivity.
Defined.

(** ** [Receive] *)

Lemma recv_loop_full (full : list string) (rest : list (option string)) (raw : string) :
  Forall (fun s => String.length s = 255) full ->
  recv_loop (map Some full ++ rest) raw = recv_loop rest (raw ++ cat (map c_str full)).
Proof.
  intro Hfull. revert raw; induction Hfull as [|s full Hs Hfull IH]; intro raw.
  - cbn [map List.app cat fold_right]. rewrite str_app_nil_r. reflexivity.
  - cbn [map List.app recv_loop]. rewrite Hs. cbn [Nat.eqb]. rewrite IH.
    cbn [cat fold_right]. rewrite str_app_assoc. reflexivity.
Qed.

(** A failed [recv] after any number of full reads ends [Receive] with
    [SOCKET_RECV]: the response holds the bytes read so far and nothing
    is parsed; later reads are never made. *)
Theorem Receive_read_error (full : list string) (later : list (option string)) (r : HTTPResponse) :
  Forall (fun s => String.length s = 255) full ->
  Receive (map Some full ++ None :: later) r
  = Some (SOCKET_RECV, with_raw (HTTPResponse_Reset r) (cat (map c_str full))).
Proof.
  intro Hfull. unfold Receive. rewrite recv_loop_full by exact Hfull. reflexivity.
Qed.

Lemma Receive_read_error_witness :
  Receive (map Some [str_repeat 255 "a"] ++ None :: [Some "b"]) empty_response
  = Some (SOCKET_RECV, with_raw (HTTPResponse_Reset empty_response) (cat (map c_str [str_repeat 255 "a"]))).
Proof. apply Receive_read_error. constructor; [reflexivity|constructor]. Defined.

(** A read shorter than the 255-byte buffer ends the loop: the response is
    parsed from the bytes read up to and including it, and what the peer
    would send afterwards is never read. *)
Theorem Receive_short_read_ends (full : list string) (s : string) (later : list (option string))
    (r : HTTPResponse) :
  Forall (fun s => String.length s = 255) full -> String.length s <> 255 ->
  Receive (map Some full ++ Some s :: later) r
  = ParseResponse (with_raw (HTTPResponse_Reset r) (cat (map c_str full) ++ c_str s)).
Proof.
  intros Hfull Hs. unfold Receive. rewrite recv_loop_full by exact Hfull.
  cbn [recv_loop]. apply Nat.eqb_neq in Hs. rewrite Hs. reflexivity.
Qed.

Lemma Receive_short_read_ends_witness :
  Receive (map Some [] ++ Some ("HTTP/1.1 204 No" ++ CRLF) :: [Some "ignored"]) empty_response
  = ParseResponse (with_raw (HTTPResponse_Reset empty_response)
                     (cat (map c_str []) ++ c_str ("HTTP/1.1 204 No" ++ CRLF))).
Proof. apply Receive_short_read_ends; [constructor|discriminate]. Defined.

(** ** [Send] *)

Lemma Send_delivers_witness :
  exists segs,
    (Send (fun _ n => if Z.ltb 0 n then Some 1%Z else None) "GET" = Some (OK, map Some segs)
     /\ cat segs = "GET")
    \/ (Send (fun _ n => if Z.ltb 0 n then Some 1%Z else None) "GET"
        = Some (SOCKET_SEND, (map Some segs ++ [None])%list)
        /\ exists rest, cat segs ++ rest = "GET").
Proof.
  apply Send_delivers.
  - intros i n k H. destruct (Z.ltb_spec 0 n); [injection H as <-; lia|discriminate].
  - unfold INT_MAX. simpl. lia.
Defined.

(** ** [Request] *)

(** A request that ends in an error leaves the client exactly as it was:
    the cookie jar is only updated after a successful receive and parse. *)
Theorem Request_error_keeps_client (net : Net) (c c' : HTTPClient) (method path : string)
    (query_params : Map) (data content_type : string) (user_headers user_cookies : Map)
    (e : ECode) :
  Request net c method path query_params data content_type user_headers user_cookies = Some (e, c') ->
  e <> OK -> c' = c.
Proof.
  intros H He. destruct (Request_cases _ _ _ _ _ _ _ _ _ _ _ H) as [->|[E _]]; [reflexivity|].
  contradiction.
Qed.

Lemma Request_error_keeps_client_witness :
  example_client = example_client.
Proof.
  apply (Request_error_keeps_client refusing_net example_client example_client "GET" "/" [] "" ""
           [] [] SOCKET_CONNECT); [vm_compute; reflexivity|discriminate].
Defined.

(** [Request] never changes the host, the port, the resolved address or
    the persistent headers of the client, whatever the outcome. *)
Theorem Request_keeps_configuration (net : Net) (c c' : HTTPClient) (method path : string)
    (query_params : Map) (data content_type : string) (user_headers user_cookies : Map)
    (e : ECode) :
  Request net c method path query_params data content_type user_headers user_cookies = Some (e, c') ->
  _unresolved_host c' = _unresolved_host c /\ _port c' = _port c
  /\ _address c' = _address c /\ _system_headers c' = _system_headers c.
Proof.
  intro H. destruct (Request_cases _ _ _ _ _ _ _ _ _ _ _ H) as [->|[_ [resp [_ ->]]]];
    [|unfold CookieJarRequest.update_jar]; repeat split.
Qed.

Lemma Request_keeps_configuration_witness :
  _unresolved_host (with_system_cookies example_client [("id", "7")]) = _unresolved_host example_client
  /\ _port (with_system_cookies example_client [("id", "7")]) = _port example_client
  /\ _address (with_system_cookies example_client [("id", "7")]) = _address example_client
  /\ _system_headers (with_system_cookies example_client [("id", "7")]) = _system_headers example_client.
Proof.
  apply (Request_keeps_configuration answering_net example_client
           (with_system_cookies example_client [("id", "7")]) "GET" "/" [] "" "" [] [] OK).
  vm_compute. reflexivity.
Defined.

(** ** [ResolveHost] *)

(** [ResolveHost] changes nothing in the client but the address, and
    leaves the client untouched when it fails. *)
Theorem ResolveHost_only_address (getaddrinfo : string -> string -> option (list addrinfo))
    (c c' : HTTPClient) (e : ECode) :
  ResolveHost getaddrinfo c = (e, c') ->
  c' = with_address c (_address c') /\ (e <> OK -> c' = c).
Proof.
  unfold ResolveHost. intro H.
  destruct (getaddrinfo _ _) as [l|]; [destruct (first_match l) as [ai|]|];
    injection H as <- <-; (split; [destruct c; reflexivity|]); try (intros; reflexivity).
  intro He. contradiction.
Qed.

Lemma ResolveHost_only_address_witness :
  example_client = with_address example_client (_address example_client)
  /\ (HOST_ADDRINFO <> OK -> example_client = example_client).
Proof.
  apply (ResolveHost_only_address (fun _ _ => None) example_client example_client HOST_ADDRINFO).
  reflexivity.
Defined.
